(** * Jugend-Weihe image server: upload-and-persist pipeline

    A shallow embedding of [server.js].  The file holds two variants of the
    same Express server (a local one and a deployable one); both are
    embedded, in the modules [Variant1] and [Variant2].

    Strings are byte strings ([string]); a number is an [N] or a [Z]; the
    blob directory is a finite map from storage names to stored sizes; the
    metadata collection is the list of its documents in insertion order.
    The libraries the server calls (Node's [path], multer, mongoose) are
    embedded after their own code and documentation, as far as the server
    uses them. *)

From Stdlib Require Import Ascii String NArith ZArith Decimal DecimalString DecimalN.
From stdpp Require Import gmap strings list fin_maps sorting.

Local Open Scope string_scope.
Local Open Scope list_scope.
Local Open Scope Z_scope.

(** ** JavaScript string primitives *)

Module JS.

(** [c.toLowerCase()] on one code unit.  Only [A]-[Z] are mapped: no other
    character lowers to a letter of the patterns tested below. *)
Definition lower_char (c : ascii) : ascii :=
  let n := N_of_ascii c in
  if ((65 <=? n) && (n <=? 90))%N then ascii_of_N (n + 32) else c.

Fixpoint toLowerCase (s : string) : string :=
  match s with
  | EmptyString => EmptyString
  | String c r => String (lower_char c) (toLowerCase r)
  end.

(** [hay.includes(needle)]: the needle occurs at some offset. *)
Fixpoint includes (needle hay : string) : bool :=
  String.prefix needle hay ||
  match hay with
  | EmptyString => false
  | String _ r => includes needle r
  end.

(** [/a1|a2|.../.test(s)] for literal alternatives and no anchors: some
    alternative occurs somewhere in [s]. *)
Definition regex_test (alternatives : list string) (s : string) : bool :=
  existsb (fun a => includes a s) alternatives.

(** [s.slice(a, b)] for [0 <= a <= b]. *)
Definition slice (s : string) (a b : Z) : string :=
  String.substring (Z.to_nat a) (Z.to_nat (b - a)) s.

(** [s.charCodeAt(i)] for an index inside the string. *)
Definition charAt (s : string) (i : nat) : ascii :=
  match String.get i s with Some c => c | None => Ascii.zero end.

(** [String(n)] for a non-negative integer below 1e21 (every value of
    [Date.now()] is): its decimal digits. *)
Definition number_to_string (n : N) : string :=
  NilEmpty.string_of_uint (N.to_uint n).

End JS.

(** ** Node's [path] module (POSIX flavour) *)

Module Path.

Record ExtState := {
  startDot : Z;
  startPart : Z;
  endIdx : Z;
  matchedSlash : bool;
  preDotState : Z
}.

Definition ext_init : ExtState :=
  {| startDot := -1; startPart := 0; endIdx := -1;
     matchedSlash := true; preDotState := 0 |}.

(** The loop of [path.extname]: [for (i = path.length - 1; i >= 0; --i)].
    [n] is [i + 1]; leaving the recursion is the loop's [break]. *)
Fixpoint extname_loop (path : string) (n : nat) (st : ExtState) : ExtState :=
  match n with
  | O => st
  | S i =>
    let code := JS.charAt path i in
    if Ascii.eqb code "/" then
      if negb (matchedSlash st) then
        {| startDot := startDot st; startPart := Z.of_nat i + 1;
           endIdx := endIdx st; matchedSlash := matchedSlash st;
           preDotState := preDotState st |}
      else extname_loop path i st
    else
      let st1 :=
        if endIdx st =? -1 then
          {| startDot := startDot st; startPart := startPart st;
             endIdx := Z.of_nat i + 1; matchedSlash := false;
             preDotState := preDotState st |}
        else st in
      let st2 :=
        if Ascii.eqb code "." then
          if startDot st1 =? -1 then
            {| startDot := Z.of_nat i; startPart := startPart st1;
               endIdx := endIdx st1; matchedSlash := matchedSlash st1;
               preDotState := preDotState st1 |}
          else if negb (preDotState st1 =? 1) then
            {| startDot := startDot st1; startPart := startPart st1;
               endIdx := endIdx st1; matchedSlash := matchedSlash st1;
               preDotState := 1 |}
          else st1
        else if negb (startDot st1 =? -1) then
          {| startDot := startDot st1; startPart := startPart st1;
             endIdx := endIdx st1; matchedSlash := matchedSlash st1;
             preDotState := -1 |}
        else st1 in
      extname_loop path i st2
  end.

Definition extname (path : string) : string :=
  let st := extname_loop path (String.length path) ext_init in
  if (startDot st =? -1) || (endIdx st =? -1) || (preDotState st =? 0) ||
     ((preDotState st =? 1) && (startDot st =? endIdx st - 1)
      && (startDot st =? startPart st + 1))
  then ""
  else JS.slice path (startDot st) (endIdx st).

Record BaseState := { b_start : Z; b_end : Z; b_matchedSlash : bool }.

(** The loop of [path.basename] called without a suffix. *)
Fixpoint basename_loop (path : string) (n : nat) (st : BaseState) : BaseState :=
  match n with
  | O => st
  | S i =>
    if Ascii.eqb (JS.charAt path i) "/" then
      if negb (b_matchedSlash st) then
        {| b_start := Z.of_nat i + 1; b_end := b_end st;
           b_matchedSlash := b_matchedSlash st |}
      else basename_loop path i st
    else if b_end st =? -1 then
      basename_loop path i
        {| b_start := b_start st; b_end := Z.of_nat i + 1;
           b_matchedSlash := false |}
    else basename_loop path i st
  end.

Definition basename (path : string) : string :=
  let st := basename_loop path (String.length path)
              {| b_start := 0; b_end := -1; b_matchedSlash := true |} in
  if b_end st =? -1 then "" else JS.slice path (b_start st) (b_end st).

End Path.

(** ** Requests, responses and the server's world *)

(** What becomes of a part that arrives after multer has met an error.
    The request is read on while multer waits for pending writes, unlinks
    the files uploaded so far and then drops its listeners; a part that
    follows the failing one is [Cleaned] when multer handles it and its
    write ends before the unlinking, [Orphaned] when multer handles it
    after the unlinking, and [Unseen] when it arrives after the listeners
    are gone.  Which it is depends on how the body is delivered. *)
Inductive Late :=
| Unseen
| Cleaned
| Orphaned.

(** One file part of a multipart body as busboy reports it to multer:
    [fieldname], [originalname] and [mimetype] are the fields of multer's
    file object; [size] counts the payload bytes; [named_at] is the value
    [Date.now()] has when the storage's [filename] callback runs for it;
    [late] tells what becomes of the part after an error.
    A part that carries no file name is no file for multer, which drains
    it unseen; such parts are left out of a body. *)
Record Part := {
  fieldname : string;
  originalname : string;
  mimetype : string;
  size : N;
  named_at : N;
  late : Late
}.

(** An element of [req.files]: the part, extended with what the disk
    storage reports ([file.filename]; [file.size] is the count of bytes
    written). *)
Record File := { part : Part; filename : string; written : N }.

Inductive Body :=
| NotMultipart
| Multipart (parts : list Part).

(** A request and what its handler observes of the outside while it runs:
    [clock i] is [Date.now()] when the [i]-th document of the batch takes
    its [uploadedAt] default; [db_rejects = Some k] when the store rejects
    the batch write after committing [k] documents; [query_fails] when the
    store rejects the query. *)
Record Request := {
  body : Body;
  clock : nat -> N;
  db_rejects : option nat;
  query_fails : bool
}.

Inductive Json :=
| Message (message : string)
| FilePaths (filePaths : list string).

Record Response := { status : N; json : Json }.

(** ** The [Image] model (mongoose) *)

Module Image.

(** A document of [ImageSchema]. *)
Record Doc := { filename : string; path : string; uploadedAt : N }.

(** The plain object the handler builds for a file. *)
Record Descriptor := { d_filename : string; d_path : string }.

Definition build (clock : nat -> N) (i : nat) (d : Descriptor) : Doc :=
  {| filename := d_filename d; path := d_path d; uploadedAt := clock i |}.

(** [Image.insertMany(docs)], an ordered batch write: the documents are
    built in order, each taking the [uploadedAt] default, and appended to
    the collection; when the store rejects the write the call throws
    ([None]) and the collection keeps the documents committed before. *)
Definition insertMany (clock : nat -> N) (rejects : option nat)
    (docs : list Descriptor) (coll : list Doc) : option (list Doc) * list Doc :=
  let built := imap (build clock) docs in
  match rejects with
  | None => (Some built, coll ++ built)
  | Some k => (None, coll ++ take k built)
  end.

(** The store's query engine, as far as the handlers use it:
    [find().sort({ uploadedAt: -1 })] on a collection. *)
Class Engine := find_sort_desc : list Doc -> list Doc.

(** [a] may be listed before [b] when the newest come first. *)
Definition not_older (a b : Doc) : Prop := (uploadedAt b <= uploadedAt a)%N.

(** What the query asks of the engine: all documents of the collection, in
    non-increasing [uploadedAt] order.  It names no other sort key. *)
Definition honours_sort (E : Engine) : Prop :=
  forall coll,
    find_sort_desc coll ≡ₚ coll /\ Sorted not_older (find_sort_desc coll).

End Image.

Record World := {
  disk : gmap string N;
  images : list Image.Doc
}.

(** ** multer

    The part of multer's middleware that [.array(field, maxCount)] with a
    disk storage, a size limit and a file filter puts to work, after the
    library's code.  Files are handled one at a time, in the order of the
    body, and two writes under one name are taken one after the other.
    A file is over the limit when it has more than [fileSize] bytes; its
    stream is then cut at the limit.  The first error is the one handed
    to the route; the parts that follow it are handled as their [late]
    tells. *)

Module Multer.

Inductive Error :=
| LIMIT_FILE_SIZE (field : string)
| LIMIT_UNEXPECTED_FILE (field : string)
| FilterError (message : string).

(** [err.message] *)
Definition message (e : Error) : string :=
  match e with
  | LIMIT_FILE_SIZE _ => "File too large"
  | LIMIT_UNEXPECTED_FILE _ => "Unexpected field"
  | FilterError m => m
  end.

(** What a [fileFilter] passes to its callback: [cb(null, true)] or
    [cb(new Error(m))]. *)
Inductive Verdict :=
| Accept
| Reject (message : string).

(** [multer({ storage, limits, fileFilter }).array(field, maxCount)] *)
Record Options := {
  storage_filename : Part -> string;
  fileSize : N;
  fileFilter : Part -> Verdict;
  field : string;
  maxCount : nat
}.

(** The outcome handed to the route's callback: [err], or [req.files]
    ([None] when multer left the request untouched). *)
Inductive Outcome :=
| Failed (err : Error)
| Next (files : option (list File)).

(** [filesLeft[file.fieldname] || 0] *)
Definition files_left (o : Options) (left : nat) (name : string) : nat :=
  if String.eqb name (field o) then left else 0%nat.

(** [removeUploadedFiles]: every file uploaded so far is unlinked. *)
Definition remove_uploaded (uploaded : list File) (d : gmap string N)
    : gmap string N :=
  foldr (fun f acc => delete (filename f) acc) d uploaded.

(** A part handled after an error: the checks are made and their errors
    dropped ([abortWithError] returns at once); an accepted file is
    written, cut at the size limit, and joins the uploaded files. *)
Definition handle_late (o : Options) (p : Part) (left : nat)
    (uploaded : list File) (d : gmap string N)
    : nat * list File * gmap string N :=
  if (files_left o left (fieldname p) <=? 0)%nat then (left, uploaded, d)
  else
    match fileFilter o p with
    | Reject _ => ((left - 1)%nat, uploaded, d)
    | Accept =>
      let name := storage_filename o p in
      let n := N.min (size p) (fileSize o) in
      ((left - 1)%nat,
       uploaded ++ [{| part := p; filename := name; written := n |}],
       <[name := n]> d)
    end.

(** The parts handled after the uploaded files were unlinked: what they
    write stays. *)
Fixpoint write_orphans (o : Options) (parts : list Part) (left : nat)
    (d : gmap string N) : gmap string N :=
  match parts with
  | [] => d
  | p :: rest =>
    match late p with
    | Orphaned =>
      let '(left', _, d') := handle_late o p left [] d in
      write_orphans o rest left' d'
    | _ => d
    end
  end.

(** [abortWithError]: the parts that arrive while writes are pending are
    handled; then every file uploaded so far is unlinked; the parts that
    arrive before the listeners are dropped are handled after that. *)
Fixpoint abort (o : Options) (parts : list Part) (left : nat)
    (uploaded : list File) (d : gmap string N) : gmap string N :=
  match parts with
  | [] => remove_uploaded uploaded d
  | p :: rest =>
    match late p with
    | Cleaned =>
      let '(left', uploaded', d') := handle_late o p left uploaded d in
      abort o rest left' uploaded' d'
    | Orphaned => write_orphans o parts left (remove_uploaded uploaded d)
    | Unseen => remove_uploaded uploaded d
    end
  end.

(** The file pipeline, one part after the other: the field and count check
    of the wrapped filter, the [fileFilter], then the storage, which names
    the file and writes its bytes until the size limit cuts the stream. *)
Fixpoint process (o : Options) (parts : list Part) (left : nat)
    (uploaded : list File) (d : gmap string N) : Outcome * gmap string N :=
  match parts with
  | [] => (Next (Some uploaded), d)
  | p :: rest =>
    if (files_left o left (fieldname p) <=? 0)%nat then
      (Failed (LIMIT_UNEXPECTED_FILE (fieldname p)),
       abort o rest left uploaded d)
    else
      match fileFilter o p with
      | Reject m =>
        (Failed (FilterError m), abort o rest (left - 1) uploaded d)
      | Accept =>
        let name := storage_filename o p in
        if (fileSize o <? size p)%N then
          let f := {| part := p; filename := name; written := fileSize o |} in
          (Failed (LIMIT_FILE_SIZE (fieldname p)),
           abort o rest (left - 1) (uploaded ++ [f]) (<[name := fileSize o]> d))
        else
          let f := {| part := p; filename := name; written := size p |} in
          process o rest (left - 1) (uploaded ++ [f]) (<[name := size p]> d)
      end
  end.

(** The middleware.  A request that is not multipart passes through. *)
Definition middleware (o : Options) (b : Body) (d : gmap string N)
    : Outcome * gmap string N :=
  match b with
  | NotMultipart => (Next None, d)
  | Multipart parts => process o parts (maxCount o) [] d
  end.

End Multer.

(** [!req.files || req.files.length === 0] *)
Definition no_files (files : option (list File)) : bool :=
  match files with
  | None => true
  | Some l => (length l =? 0)%nat
  end.

Definition files_of (files : option (list File)) : list File :=
  match files with Some l => l | None => [] end.

(** [{ filename: file.filename, path: `/uploads/${file.filename}` }] *)
Definition descriptor (file : File) : Image.Descriptor :=
  {| Image.d_filename := filename file;
     Image.d_path := "/uploads/" +:+ filename file |}.

(** [GET /images], the same in both variants. *)
Definition get_images {E : Image.Engine} (req : Request) (w : World) : Response :=
  if query_fails req then
    {| status := 500; json := Message "Fehler beim Abrufen der Bilder" |}
  else
    let images := Image.find_sort_desc (images w) in
    {| status := 200; json := FilePaths (map Image.path images) |}.

(** ** The first variant *)

Module Variant1.

Definition storage_filename (file : Part) : string :=
  JS.number_to_string (named_at file)
  +:+ Path.extname (Path.basename (originalname file)).

Definition fileFilter (file : Part) : Multer.Verdict :=
  let filetypes := ["jpeg"; "jpg"; "png"; "gif"] in
  let isValidExt :=
    JS.regex_test filetypes (JS.toLowerCase (Path.extname (originalname file))) in
  let isValidMime := JS.regex_test filetypes (mimetype file) in
  if isValidExt && isValidMime then Multer.Accept
  else Multer.Reject "Nur JPG, PNG, GIF erlaubt!".

Definition options : Multer.Options :=
  {| Multer.storage_filename := storage_filename;
     Multer.fileSize := 2 * 1024 * 1024;
     Multer.fileFilter := fileFilter;
     Multer.field := "images";
     Multer.maxCount := 10 |}.

Definition upload : Body -> gmap string N -> Multer.Outcome * gmap string N :=
  Multer.middleware options.

(** The callback the route passes to [upload]; [w] is the world multer
    leaves behind. *)
Definition callback (req : Request) (w : World) (out : Multer.Outcome)
    : Response * World :=
  match out with
  | Multer.Failed err =>
    ({| status := 400; json := Message (Multer.message err) |}, w)
  | Multer.Next files =>
    if no_files files then
      ({| status := 400; json := Message "Keine Datei ausgewählt!" |}, w)
    else
      let filePaths :=
        map (fun file => "/uploads/" +:+ filename file) (files_of files) in
      match Image.insertMany (clock req) (db_rejects req)
              (map descriptor (files_of files)) (images w) with
      | (None, coll) =>
        ({| status := 500; json := Message "Fehler beim Speichern der Bilder" |},
         {| disk := disk w; images := coll |})
      | (Some savedImages, coll) =>
        ({| status := 200; json := FilePaths filePaths |},
         {| disk := disk w; images := coll |})
      end
  end.

(** [POST /upload] *)
Definition post_upload (req : Request) (w : World) : Response * World :=
  let '(out, d) := upload (body req) (disk w) in
  callback req {| disk := d; images := images w |} out.

End Variant1.

(** ** The second variant *)

Module Variant2.

Definition storage_filename (file : Part) : string :=
  JS.number_to_string (named_at file) +:+ Path.extname (originalname file).

Definition fileFilter (file : Part) : Multer.Verdict :=
  let allowedTypes := ["jpeg"; "jpg"; "png"; "gif"] in
  let isValid :=
    JS.regex_test allowedTypes (mimetype file)
    && JS.regex_test allowedTypes
         (JS.toLowerCase (Path.extname (originalname file))) in
  if isValid then Multer.Accept
  else Multer.Reject "❌ Nur JPG, PNG, GIF erlaubt!".

Definition options : Multer.Options :=
  {| Multer.storage_filename := storage_filename;
     Multer.fileSize := 2 * 1024 * 1024;
     Multer.fileFilter := fileFilter;
     Multer.field := "images";
     Multer.maxCount := 10 |}.

Definition upload : Body -> gmap string N -> Multer.Outcome * gmap string N :=
  Multer.middleware options.

Definition callback (req : Request) (w : World) (out : Multer.Outcome)
    : Response * World :=
  match out with
  | Multer.Failed err =>
    ({| status := 400; json := Message (Multer.message err) |}, w)
  | Multer.Next files =>
    if no_files files then
      ({| status := 400; json := Message "❌ Keine Datei ausgewählt!" |}, w)
    else
      match Image.insertMany (clock req) (db_rejects req)
              (map descriptor (files_of files)) (images w) with
      | (Some savedImages, coll) =>
        ({| status := 200; json := FilePaths (map Image.path savedImages) |},
         {| disk := disk w; images := coll |})
      | (None, coll) =>
        ({| status := 500;
            json := Message "Fehler beim Speichern in der Datenbank" |},
         {| disk := disk w; images := coll |})
      end
  end.

(** [POST /upload] *)
Definition post_upload (req : Request) (w : World) : Response * World :=
  let '(out, d) := upload (body req) (disk w) in
  callback req {| disk := d; images := images w |} out.

End Variant2.

(** ** Vocabulary of the statements *)

(** The size limit both variants configure. *)
Definition size_limit : N := 2 * 1024 * 1024.

(** The type test both [fileFilter]s compute. *)
Definition type_ok (p : Part) : bool :=
  JS.regex_test ["jpeg"; "jpg"; "png"; "gif"]
    (JS.toLowerCase (Path.extname (originalname p)))
  && JS.regex_test ["jpeg"; "jpg"; "png"; "gif"] (mimetype p).

(** A part that passes every per-file check of the pipeline. *)
Definition acceptable (p : Part) : Prop :=
  fieldname p = "images" /\ type_ok p = true /\ (size p <= size_limit)%N.

(** What the storage makes of an accepted part. *)
Definition stored (o : Multer.Options) (p : Part) : File :=
  {| part := p; filename := Multer.storage_filename o p; written := size p |}.

Definition write (o : Multer.Options) (d : gmap string N) (p : Part)
    : gmap string N :=
  <[Multer.storage_filename o p := size p]> d.

(** The validity rule in the words of the specification: the extension is
    one of jpg, jpeg, png, gif, whatever its case, and the declared content
    type is one of the four listed image types. *)
Definition spec_valid (p : Part) : bool :=
  bool_decide (JS.toLowerCase (Path.extname (originalname p))
               ∈ [".jpg"; ".jpeg"; ".png"; ".gif"])
  && bool_decide (mimetype p
               ∈ ["image/jpeg"; "image/jpg"; "image/png"; "image/gif"]).

(** Modelled from the spec: the order in which the store answers
    [find().sort({ uploadedAt: -1 })].  The store itself (MongoDB, reached
    through mongoose) is not part of the source, which names [uploadedAt]
    as the only sort key.  In the words of the specification: most recent
    first, documents of equal [uploadedAt] in insertion order.  It is the
    stable insertion sort of the collection. *)
Fixpoint insert_desc (x : Image.Doc) (l : list Image.Doc) : list Image.Doc :=
  match l with
  | [] => [x]
  | y :: r =>
    if (Image.uploadedAt y <=? Image.uploadedAt x)%N then x :: l
    else y :: insert_desc x r
  end.

Definition spec_listAll (coll : list Image.Doc) : list Image.Doc :=
  foldr insert_desc [] coll.

(** What the loop of [path.extname] keeps true of the dot it has marked:
    it lies before the end mark and the character there is a dot. *)
Definition dot_marked (path : string) (st : Path.ExtState) : Prop :=
  Path.startDot st <> -1 ->
  0 <= Path.startDot st < Path.endIdx st /\
  String.get (Z.to_nat (Path.startDot st)) path = Some "."%char.

(** The end mark, once set, lies beyond every index still to visit. *)
Definition end_ahead (n : nat) (st : Path.ExtState) : Prop :=
  Path.endIdx st = -1 \/ Z.of_nat n < Path.endIdx st.

(** A string without a dot. *)
Fixpoint dotless (s : string) : Prop :=
  match s with
  | EmptyString => True
  | String c r => c <> "."%char /\ dotless r
  end.

(** A part that passes every check of a pipeline configured with [o]. *)
Definition passes (o : Multer.Options) (p : Part) : Prop :=
  fieldname p = Multer.field o /\
  Multer.fileFilter o p = Multer.Accept /\
  (size p <= Multer.fileSize o)%N.

(** The documents a successful batch insert creates for the given storage
    names. *)
Definition docs_for (clock : nat -> N) (names : list string) : list Image.Doc :=
  imap (fun i n => {| Image.filename := n;
                      Image.path := "/uploads/" +:+ n;
                      Image.uploadedAt := clock i |}) names.

(** Modelled from the spec: the store's query engine, which is not part
    of the source.  It lists documents of equal [uploadedAt] in insertion
    order. *)
Definition insertion_order_engine : Image.Engine := spec_listAll.

(** Another engine that honours the sort key; it lists documents of equal
    [uploadedAt] in the reverse of their insertion order. *)
Definition reverse_order_engine : Image.Engine :=
  fun coll => spec_listAll (reverse coll).

(** A request turned down with status 400 and a message, without a
    document added. *)
Definition answered_400 (w : World) (r : Response * World) : Prop :=
  status r.1 = 400%N /\ (exists m, json r.1 = Message m) /\
  images r.2 = images w.

(** A request turned down with status 400 that leaves no trace: no
    document is added and the disk holds nothing it did not hold before. *)
Definition rejected_400 (w : World) (r : Response * World) : Prop :=
  status r.1 = 400%N /\ (exists m, json r.1 = Message m) /\
  images r.2 = images w /\ disk r.2 ⊆ disk w.

(** ** Vocabulary of the further properties *)

(** The shape the two [POST /upload] routes share: the middleware runs,
    then the callback of the route. *)
Definition route (o : Multer.Options)
    (cb : Request -> World -> Multer.Outcome -> Response * World)
    (req : Request) (w : World) : Response * World :=
  let '(out, d) := Multer.middleware o (body req) (disk w) in
  cb req {| disk := d; images := images w |} out.

(** A request whose files all reach the callback: a multipart body of one
    to ten acceptable parts. *)
Definition accepted_request (req : Request) : Prop :=
  exists parts, body req = Multipart parts /\ parts <> [] /\
                (length parts <= 10)%nat /\ Forall acceptable parts.

(** The same for a pipeline configured with [o]. *)
Definition accepted_by (o : Multer.Options) (req : Request) : Prop :=
  exists parts, body req = Multipart parts /\ parts <> [] /\
                (length parts <= Multer.maxCount o)%nat /\
                Forall (passes o) parts.

(** The path of every document is ["/uploads/"] followed by its file name. *)
Definition path_rule (coll : list Image.Doc) : Prop :=
  Forall (fun doc => Image.path doc = "/uploads/" +:+ Image.filename doc) coll.

(** A string without a slash. *)
Fixpoint slashless (s : string) : Prop :=
  match s with
  | EmptyString => True
  | String c r => c <> "/"%char /\ slashless r
  end.

(** [needle] occurs in [hay]. *)
Definition occurs_in (needle hay : string) : Prop :=
  exists before after, hay = before +:+ needle +:+ after.

(** A string of slashes only. *)
Fixpoint all_slashes (s : string) : Prop :=
  match s with
  | EmptyString => True
  | String c r => c = "/"%char /\ all_slashes r
  end.

(** What one turn of the loop of [path.extname] does to its state at index
    [i] when the character there is no slash. *)
Definition ext_step (i : nat) (code : ascii) (st : Path.ExtState) : Path.ExtState :=
  let st1 :=
    if Path.endIdx st =? -1 then
      {| Path.startDot := Path.startDot st; Path.startPart := Path.startPart st;
         Path.endIdx := Z.of_nat i + 1; Path.matchedSlash := false;
         Path.preDotState := Path.preDotState st |}
    else st in
  if Ascii.eqb code "." then
    if Path.startDot st1 =? -1 then
      {| Path.startDot := Z.of_nat i; Path.startPart := Path.startPart st1;
         Path.endIdx := Path.endIdx st1; Path.matchedSlash := Path.matchedSlash st1;
         Path.preDotState := Path.preDotState st1 |}
    else if negb (Path.preDotState st1 =? 1) then
      {| Path.startDot := Path.startDot st1; Path.startPart := Path.startPart st1;
         Path.endIdx := Path.endIdx st1; Path.matchedSlash := Path.matchedSlash st1;
         Path.preDotState := 1 |}
    else st1
  else if negb (Path.startDot st1 =? -1) then
    {| Path.startDot := Path.startDot st1; Path.startPart := Path.startPart st1;
       Path.endIdx := Path.endIdx st1; Path.matchedSlash := Path.matchedSlash st1;
       Path.preDotState := -1 |}
  else st1.

(** The state of the loop on a whole path, [a], and on its last component
    alone, [b], when that component starts at index [lp] of the path: the
    marks of [b] are those of [a] moved by [lp]. *)
Definition shifted (lp : nat) (a b : Path.ExtState) : Prop :=
  Path.startDot b
  = (if Path.startDot a =? -1 then -1 else Path.startDot a - Z.of_nat lp) /\
  Path.endIdx b
  = (if Path.endIdx a =? -1 then -1 else Path.endIdx a - Z.of_nat lp) /\
  Path.matchedSlash b = Path.matchedSlash a /\
  Path.preDotState b = Path.preDotState a /\
  Path.startPart a = 0 /\ Path.startPart b = 0 /\
  (Path.startDot a = -1 \/ Z.of_nat lp <= Path.startDot a) /\
  (Path.endIdx a = -1 \/ Z.of_nat lp < Path.endIdx a) /\
  (Path.matchedSlash a = true -> Path.endIdx a = -1).

(** Serving upload requests one after the other. *)
Definition serve (h : Request -> World -> Response * World)
    (reqs : list Request) (w : World) : World :=
  foldl (fun w req => (h req w).2) w reqs.

Global Instance verdict_eq_dec : EqDecision Multer.Verdict.
Proof. solve_decision. Defined.

Global Instance passes_dec (o : Multer.Options) (p : Part) : Decision (passes o p).
Proof. unfold passes. apply _. Defined.

(** ** Sample requests *)

Definition empty_world : World := {| disk := ∅; images := [] |}.

Definition request_of (parts : list Part) (rejects : option nat) : Request :=
  {| body := Multipart parts; clock := fun _ => 1700000000005%N;
     db_rejects := rejects; query_fails := false |}.

(** A file whose extension and content type merely contain a listed word. *)
Definition disguised : Part :=
  {| fieldname := "images"; originalname := "notes.jpgx";
     mimetype := "application/x-png-archive"; size := 10;
     named_at := 1700000000001; late := Unseen |}.

(** Two files of one batch, named within the same millisecond. *)
Definition twin_a : Part :=
  {| fieldname := "images"; originalname := "a.png"; mimetype := "image/png";
     size := 512000; named_at := 1700000000000; late := Unseen |}.
Definition twin_b : Part :=
  {| fieldname := "images"; originalname := "b.png"; mimetype := "image/png";
     size := 204800; named_at := 1700000000000; late := Unseen |}.

(** A 3 MB photo. *)
Definition oversized : Part :=
  {| fieldname := "images"; originalname := "gross.jpg"; mimetype := "image/jpeg";
     size := 3000000; named_at := 1700000000002; late := Unseen |}.

(** A picture sent under the field name [image]. *)
Definition misfiled : Part :=
  {| fieldname := "image"; originalname := "c.gif"; mimetype := "image/gif";
     size := 1000; named_at := 1700000000003; late := Unseen |}.

(** A small animation, named a little later. *)
Definition gif_file : Part :=
  {| fieldname := "images"; originalname := "d.gif"; mimetype := "image/gif";
     size := 4096; named_at := 1700000000003; late := Unseen |}.

(** A text file with its declared type. *)
Definition text_file : Part :=
  {| fieldname := "images"; originalname := "brief.txt"; mimetype := "text/plain";
     size := 1000; named_at := 1700000000004; late := Unseen |}.

(** The same animation, arriving after an error and handled once the
    uploaded files were unlinked. *)
Definition late_gif : Part :=
  {| fieldname := "images"; originalname := "d.gif"; mimetype := "image/gif";
     size := 4096; named_at := 1700000000003; late := Orphaned |}.


(** * Properties *)

(** ** Strings, [path.extname] and the decimal rendering *)

Section Extname.
Variable path : string.
Lemma charAt_dot i :
  Ascii.eqb (JS.charAt path i) "." = true -> String.get i path = Some "."%char.
Proof.
  unfold JS.charAt. destruct (String.get i path) as [c|]; intros H.
  - apply Ascii.eqb_eq in H. by subst.
  - discriminate H.
Qed.

Lemma extname_loop_dot_marked n : forall st,
  end_ahead n st -> dot_marked path st ->
  dot_marked path (Path.extname_loop path n st).
Proof.
  induction n as [|i IH]; intros st Hend Hdot; [exact Hdot|].
  destruct st as [sd sp e ms pd].
  unfold end_ahead, dot_marked in Hend, Hdot; cbn in Hend, Hdot.
  cbn [Path.extname_loop Path.startDot Path.startPart Path.endIdx
       Path.matchedSlash Path.preDotState].
  destruct (Ascii.eqb (JS.charAt path i) "/").
  { destruct (negb ms); [exact Hdot|].
    apply IH; [|exact Hdot]. unfold end_ahead; cbn. lia. }
  destruct (Ascii.eqb (JS.charAt path i) ".") eqn:Hc.
  - apply charAt_dot in Hc.
    destruct (Z.eqb_spec e (-1)) as [He|He]; cbn;
      destruct (Z.eqb_spec sd (-1)) as [Hs|Hs]; cbn;
      try destruct (negb (pd =? 1)); apply IH;
      unfold end_ahead, dot_marked; cbn; rewrite ?Nat2Z.id;
      try lia; try (intros _; split; [lia|done]); try (intros; lia).
    all: exact Hdot.
  - destruct (Z.eqb_spec e (-1)) as [He|He]; cbn;
      destruct (Z.eqb_spec sd (-1)) as [Hs|Hs]; cbn;
      apply IH; unfold end_ahead, dot_marked; cbn;
      try lia; try (intros; lia); try exact Hdot.
Qed.

End Extname.

Lemma substring_head (s : string) : forall (a m : nat) (c : ascii),
  String.get a s = Some c -> (0 < m)%nat ->
  exists r, String.substring a m s = String c r.
Proof.
  induction s as [|x s IH]; intros a m c Hget Hm.
  - destruct a; discriminate Hget.
  - destruct a as [|a]; cbn in Hget.
    + injection Hget as ->. destruct m as [|m]; [lia|]. cbn. eauto.
    + cbn. eapply IH; eauto.
Qed.

(** [path.extname] returns the empty string or a string that starts with
    a dot. *)
Lemma extname_shape (path : string) :
  Path.extname path = "" \/ exists r, Path.extname path = String "." r.
Proof.
  unfold Path.extname.
  set (st := Path.extname_loop path (String.length path) Path.ext_init).
  assert (Hdot : dot_marked path st).
  { apply extname_loop_dot_marked; [by left|]. intros H. by cbn in H. }
  destruct (Z.eqb_spec (Path.startDot st) (-1)) as [Hs|Hs]; [by left|].
  destruct (_ || _); [by left|]. right.
  destruct (Hdot Hs) as [Hlt Hget].
  unfold JS.slice. eapply substring_head; [exact Hget|lia].
Qed.

Lemma string_of_uint_dotless (d : Decimal.uint) :
  dotless (NilEmpty.string_of_uint d).
Proof. induction d; cbn; try split; try done. Qed.

Lemma number_to_string_dotless (n : N) : dotless (JS.number_to_string n).
Proof. apply string_of_uint_dotless. Qed.

Lemma number_to_string_inj (m n : N) :
  JS.number_to_string m = JS.number_to_string n -> m = n.
Proof.
  unfold JS.number_to_string. intros H.
  apply DecimalN.Unsigned.to_uint_inj.
  assert (Some (N.to_uint m) = Some (N.to_uint n)) as [= ->]; [|done].
  by rewrite <- !NilEmpty.usu, H.
Qed.

(** Digits followed by an extension split in one way only. *)
Lemma digits_ext_split (s1 s2 e1 e2 : string) :
  dotless s1 -> dotless s2 ->
  (e1 = "" \/ exists r, e1 = String "." r) ->
  (e2 = "" \/ exists r, e2 = String "." r) ->
  s1 +:+ e1 = s2 +:+ e2 -> s1 = s2 /\ e1 = e2.
Proof.
  revert s2. induction s1 as [|c s1 IH]; intros s2 H1 H2 He1 He2 Heq.
  - destruct s2 as [|c2 s2]; [done|]. cbn in Heq, H2. destruct H2 as [Hc2 _].
    destruct He1 as [->|[r ->]]; [discriminate Heq|].
    injection Heq as <- _. done.
  - destruct s2 as [|c2 s2]; cbn in Heq, H1.
    + destruct H1 as [Hc _]. destruct He2 as [->|[r ->]]; [discriminate Heq|].
      injection Heq as -> _. done.
    + destruct H1 as [_ H1], H2 as [_ H2]. injection Heq as -> Heq.
      destruct (IH s2 H1 H2 He1 He2 Heq) as [-> ->]. done.
Qed.

(** ** The multer pipeline *)

Section Pipeline.
Variable o : Multer.Options.

Lemma remove_uploaded_mono (up : list File) (d1 d2 : gmap string N) :
  d1 ⊆ d2 -> Multer.remove_uploaded up d1 ⊆ Multer.remove_uploaded up d2.
Proof.
  intros Hsub. induction up as [|f up IH]; cbn; [done|]. by apply delete_mono.
Qed.

(** Unlinking after one more write leaves no more than unlinking before it. *)
Lemma remove_uploaded_snoc (up : list File) (f : File) (v : N)
    (d : gmap string N) :
  Multer.remove_uploaded (up ++ [f]) (<[filename f := v]> d)
  ⊆ Multer.remove_uploaded up d.
Proof.
  unfold Multer.remove_uploaded. rewrite foldr_app. cbn.
  apply remove_uploaded_mono. rewrite delete_insert_eq. apply delete_subseteq.
Qed.

(** What handling a late part comes to. *)
Lemma handle_late_cases (p : Part) (left : nat) (up : list File)
    (d : gmap string N) :
  Multer.handle_late o p left up d = (left, up, d)
  \/ Multer.handle_late o p left up d = ((left - 1)%nat, up, d)
  \/ exists n,
       Multer.handle_late o p left up d
       = ((left - 1)%nat,
          up ++ [{| part := p; filename := Multer.storage_filename o p;
                    written := n |}],
          <[Multer.storage_filename o p := n]> d).
Proof.
  unfold Multer.handle_late. destruct (_ <=? _)%nat; [by left|].
  destruct (Multer.fileFilter o p); [|by right; left].
  right; right. by eexists.
Qed.

(** Once the count is used up, no late part is written. *)
Lemma handle_late_no_room (p : Part) (up : list File) (d : gmap string N) :
  Multer.handle_late o p 0 up d = (0%nat, up, d).
Proof.
  unfold Multer.handle_late, Multer.files_left. by destruct (String.eqb _ _).
Qed.

Lemma write_orphans_no_room (parts : list Part) (d : gmap string N) :
  Multer.write_orphans o parts 0 d = d.
Proof.
  induction parts as [|p rest IH]; cbn; [done|].
  destruct (late p); try done. by rewrite handle_late_no_room.
Qed.

Lemma abort_no_room (parts : list Part) : forall up d,
  Multer.abort o parts 0 up d = Multer.remove_uploaded up d.
Proof.
  induction parts as [|p rest IH]; intros up d; cbn; [done|].
  destruct (late p); [done| |].
  - rewrite handle_late_no_room. apply IH.
  - rewrite handle_late_no_room. apply write_orphans_no_room.
Qed.

(** When the next part is not seen any more, the abort is the unlinking. *)
Lemma abort_unseen (parts : list Part) (left : nat) (up : list File)
    (d : gmap string N) :
  Forall (fun q => late q = Unseen) parts ->
  Multer.abort o parts left up d = Multer.remove_uploaded up d.
Proof.
  intros Hun. destruct parts as [|p rest]; [done|].
  inversion Hun as [|? ? Hp _]; subst. cbn. by rewrite Hp.
Qed.

(** A failed upload of which no part is handled after the error leaves on
    disk nothing that was not there before. *)
Lemma process_failed_disk (d0 : gmap string N) (parts : list Part) :
  forall left up d e d',
    Forall (fun q => late q = Unseen) parts ->
    Multer.process o parts left up d = (Multer.Failed e, d') ->
    Multer.remove_uploaded up d ⊆ d0 -> d' ⊆ d0.
Proof.
  induction parts as [|p rest IH]; intros left up d e d' Hun Hrun Hinv;
    cbn in Hrun; [discriminate Hrun|].
  inversion Hun as [|? ? _ Hun']; subst.
  destruct (_ <=? _)%nat; [injection Hrun as _ <-; by rewrite abort_unseen|].
  destruct (Multer.fileFilter o p);
    [|injection Hrun as _ <-; by rewrite abort_unseen].
  destruct (_ <? _)%N.
  - injection Hrun as _ <-. rewrite abort_unseen by done.
    etrans; [|exact Hinv].
    apply (remove_uploaded_snoc up
             {| part := p; filename := Multer.storage_filename o p;
                written := Multer.fileSize o |}).
  - eapply IH; [done|exact Hrun|]. etrans; [|exact Hinv].
    apply (remove_uploaded_snoc up
             {| part := p; filename := Multer.storage_filename o p;
                written := size p |}).
Qed.




(** Passing parts at the head of a batch are stored one by one. *)
Lemma process_passing_prefix (pre rest : list Part) :
  forall left up d,
    Forall (passes o) pre -> (length pre <= left)%nat ->
    Multer.process o (pre ++ rest) left up d
    = Multer.process o rest (left - length pre)
        (up ++ map (stored o) pre) (foldl (write o) d pre).
Proof.
  induction pre as [|p pre IH]; intros left up d Hadm Hlen; cbn.
  - by rewrite Nat.sub_0_r, app_nil_r.
  - inversion Hadm as [|? ? (Hf & Hv & Hs) Hadm']; subst. cbn in Hlen.
    unfold Multer.files_left. rewrite Hf, String.eqb_refl.
    destruct (Nat.leb_spec left 0) as [?|_]; [lia|].
    rewrite Hv. destruct (N.ltb_spec (Multer.fileSize o) (size p)) as [?|_]; [lia|].
    rewrite IH by (done || lia).
    rewrite <- app_assoc. cbn.
    by replace (left - 1 - length pre)%nat with (left - S (length pre))%nat by lia.
Qed.

(** A batch of passing parts within the count is accepted whole. *)
Lemma process_all_pass (parts : list Part) (d : gmap string N) :
  Forall (passes o) parts -> (length parts <= Multer.maxCount o)%nat ->
  Multer.middleware o (Multipart parts) d
  = (Multer.Next (Some (map (stored o) parts)), foldl (write o) d parts).
Proof.
  intros Hadm Hlen. cbn.
  rewrite <- (app_nil_r parts) at 1.
  by rewrite process_passing_prefix.
Qed.

(** A part that is not passes fails the whole batch. *)
Lemma process_not_passing (parts : list Part) :
  forall left up d,
    Exists (fun p => ~ passes o p) parts ->
    exists e, (Multer.process o parts left up d).1 = Multer.Failed e.
Proof.
  induction parts as [|p rest IH]; intros left up d Hex;
    [by apply Exists_nil in Hex|].
  cbn. unfold Multer.files_left.
  destruct (String.eqb_spec (fieldname p) (Multer.field o)) as [Hf|Hf];
    [|by eexists].
  destruct (_ <=? _)%nat; [by eexists|].
  destruct (Multer.fileFilter o p) eqn:Hv; [|by eexists].
  destruct (N.ltb_spec (Multer.fileSize o) (size p)) as [?|Hs]; [by eexists|].
  apply IH. apply Exists_cons in Hex as [Hp|Hrest]; [|done].
  destruct Hp. by repeat split.
Qed.

(** Every part of an accepted batch has its blob on disk. *)
Lemma written_present (parts : list Part) :
  forall (d : gmap string N) (p : Part),
    p ∈ parts -> is_Some (foldl (write o) d parts !! Multer.storage_filename o p).
Proof.
  induction parts as [|q parts IH] using rev_ind; intros d p Hin.
  - by apply elem_of_nil in Hin.
  - rewrite foldl_app. cbn. unfold write at 1.
    destruct (decide (Multer.storage_filename o q = Multer.storage_filename o p))
      as [->|Hne].
    + rewrite lookup_insert_eq. by eexists.
    + rewrite lookup_insert_ne by done.
      apply elem_of_app in Hin as [Hin|Hin]; [by apply IH|].
      apply list_elem_of_singleton in Hin. by subst.
Qed.

Lemma stored_nonempty (parts : list Part) :
  parts <> [] -> map (stored o) parts <> [].
Proof. by destruct parts. Qed.

Lemma filenames_stored (parts : list Part) :
  map filename (map (stored o) parts) = map (Multer.storage_filename o) parts.
Proof. by rewrite map_map. Qed.

Lemma middleware_failed_disk (parts : list Part) (d d' : gmap string N)
    (e : Multer.Error) :
  Forall (fun q => late q = Unseen) parts ->
  Multer.middleware o (Multipart parts) d = (Multer.Failed e, d') -> d' ⊆ d.
Proof.
  cbn. intros Hun Hrun. by eapply process_failed_disk.
Qed.

Lemma middleware_rejects (parts : list Part) (d : gmap string N) :
  Exists (fun p => ~ passes o p) parts ->
  exists e d', Multer.middleware o (Multipart parts) d = (Multer.Failed e, d').
Proof.
  intros Hex.
  destruct (process_not_passing parts (Multer.maxCount o) [] d Hex) as [e He].
  destruct (Multer.middleware o (Multipart parts) d) as [out d'] eqn:Hrun.
  cbn in He, Hrun. rewrite Hrun in He. cbn in He. subst out.
  by exists e, d'.
Qed.

(** A file under another field name, after passing ones, is unexpected. *)
Lemma process_unexpected (pre : list Part) (p : Part) (post : list Part) :
  forall left up d,
    Forall (passes o) pre -> fieldname p <> Multer.field o ->
    exists x, (Multer.process o (pre ++ p :: post) left up d).1
              = Multer.Failed (Multer.LIMIT_UNEXPECTED_FILE x).
Proof.
  induction pre as [|q pre IH]; intros left up d Hadm Hp; cbn.
  - unfold Multer.files_left.
    destruct (String.eqb_spec (fieldname p) (Multer.field o)); [done|].
    by eexists.
  - inversion Hadm as [|? ? (Hf & Hv & Hs) Hadm']; subst.
    destruct (_ <=? _)%nat; [by eexists|].
    rewrite Hv. destruct (N.ltb_spec (Multer.fileSize o) (size q)); [lia|].
    by apply IH.
Qed.


(** A file within the size limit, after passing ones, is stored whole and
    the pipeline moves on to the next part. *)
Lemma process_within_limit (pre : list Part) (p : Part) (post : list Part)
    (d : gmap string N) :
  Forall (passes o) pre -> (length pre < Multer.maxCount o)%nat ->
  fieldname p = Multer.field o -> Multer.fileFilter o p = Multer.Accept ->
  (size p <= Multer.fileSize o)%N ->
  Multer.middleware o (Multipart (pre ++ p :: post)) d
  = Multer.process o post (Multer.maxCount o - S (length pre))
      (map (stored o) (pre ++ [p])) (foldl (write o) d (pre ++ [p])).
Proof.
  intros Hadm Hlen Hf Hv Hs. cbn.
  rewrite (cons_middle p pre post), app_assoc.
  rewrite process_passing_prefix.
  - rewrite length_app. cbn. do 2 f_equal. lia.
  - apply Forall_app. split; [done|]. by repeat constructor.
  - rewrite length_app. cbn. lia.
Qed.

End Pipeline.

(** ** The two variants configure the same checks *)

Lemma fileFilter1_accept (p : Part) :
  Variant1.fileFilter p = Multer.Accept <-> type_ok p = true.
Proof.
  unfold Variant1.fileFilter, type_ok. by destruct (_ && _).
Qed.

Lemma fileFilter2_accept (p : Part) :
  Variant2.fileFilter p = Multer.Accept <-> type_ok p = true.
Proof.
  unfold Variant2.fileFilter, type_ok. rewrite andb_comm. by destruct (_ && _).
Qed.

Lemma acceptable_passes1 (p : Part) :
  acceptable p <-> passes Variant1.options p.
Proof.
  unfold acceptable, passes. cbn. by rewrite fileFilter1_accept.
Qed.

Lemma acceptable_passes2 (p : Part) :
  acceptable p <-> passes Variant2.options p.
Proof.
  unfold acceptable, passes. cbn. by rewrite fileFilter2_accept.
Qed.

Lemma acceptable_all1 (parts : list Part) :
  Forall acceptable parts -> Forall (passes Variant1.options) parts.
Proof.
  intros H. eapply Forall_impl; [exact H|]. intros p. apply acceptable_passes1.
Qed.

Lemma acceptable_all2 (parts : list Part) :
  Forall acceptable parts -> Forall (passes Variant2.options) parts.
Proof.
  intros H. eapply Forall_impl; [exact H|]. intros p. apply acceptable_passes2.
Qed.

(** ** File types *)

(** Every file the specification's rule allows passes the filters. *)
Lemma spec_valid_type_ok (p : Part) : spec_valid p = true -> type_ok p = true.
Proof.
  unfold spec_valid, type_ok. intros H.
  apply andb_prop in H as [Hext Hmime].
  apply bool_decide_eq_true in Hext, Hmime.
  apply andb_true_intro; split.
  - set_unfold in Hext.
    destruct Hext as [->|[->|[->|[->|[]]]]]; reflexivity.
  - set_unfold in Hmime.
    destruct Hmime as [->|[->|[->|[->|[]]]]]; reflexivity.
Qed.

(** C1: the filters accept a file if and only if its extension and content
    type are among the listed ones.  The filters of both variants accept
    [notes.jpgx] declared as [application/x-png-archive], which the rule
    excludes: the patterns are searched anywhere in the extension and in
    the content type.  The upload of that file alone succeeds. *)
Theorem C1_filter_accepts_unlisted_type :
  spec_valid disguised = false /\
  Variant1.fileFilter disguised = Multer.Accept /\
  Variant2.fileFilter disguised = Multer.Accept /\
  (Variant1.post_upload (request_of [disguised] None) empty_world).1
  = {| status := 200; json := FilePaths ["/uploads/1700000000001.jpgx"] |} /\
  (Variant2.post_upload (request_of [disguised] None) empty_world).1
  = {| status := 200; json := FilePaths ["/uploads/1700000000001.jpgx"] |}.
Proof. repeat split; vm_compute; reflexivity. Qed.

(** ** Storage names *)

Lemma storage_name_inj (t1 t2 : N) (p1 p2 : string) :
  JS.number_to_string t1 +:+ Path.extname p1
  = JS.number_to_string t2 +:+ Path.extname p2
  <-> t1 = t2 /\ Path.extname p1 = Path.extname p2.
Proof.
  split; [|by intros [-> ->]].
  intros H.
  apply digits_ext_split in H as [Ht He];
    auto using number_to_string_dotless, extname_shape.
  split; [by apply number_to_string_inj|done].
Qed.

(** Two files get the same storage name exactly when they are named in the
    same millisecond and their original names have the same extension. *)
Lemma storage_names_equal_iff (a b : Part) :
  (Variant1.storage_filename a = Variant1.storage_filename b
   <-> named_at a = named_at b /\
       Path.extname (Path.basename (originalname a))
       = Path.extname (Path.basename (originalname b)))
  /\
  (Variant2.storage_filename a = Variant2.storage_filename b
   <-> named_at a = named_at b /\
       Path.extname (originalname a) = Path.extname (originalname b)).
Proof. split; apply storage_name_inj. Qed.

(** C2: distinct accepted files get distinct storage names.  Two distinct
    acceptable files named within the same millisecond get the same
    storage name in both variants; uploaded in one batch, both are
    answered with the same path and the blob of the first is overwritten
    by that of the second. *)
Theorem C2_same_millisecond_same_name :
  twin_a <> twin_b /\ acceptable twin_a /\ acceptable twin_b /\
  Variant1.storage_filename twin_a = Variant1.storage_filename twin_b /\
  Variant2.storage_filename twin_a = Variant2.storage_filename twin_b /\
  (let r := Variant1.post_upload (request_of [twin_a; twin_b] None) empty_world in
   r.1 = {| status := 200;
            json := FilePaths ["/uploads/1700000000000.png";
                               "/uploads/1700000000000.png"] |}
   /\ disk r.2 = {[ "1700000000000.png" := size twin_b ]}) /\
  (let r := Variant2.post_upload (request_of [twin_a; twin_b] None) empty_world in
   r.1 = {| status := 200;
            json := FilePaths ["/uploads/1700000000000.png";
                               "/uploads/1700000000000.png"] |}
   /\ disk r.2 = {[ "1700000000000.png" := size twin_b ]}).
Proof.
  split; [by intros [=]|].
  split; [by repeat split; vm_compute|].
  split; [by repeat split; vm_compute|].
  repeat split; by vm_compute.
Qed.

(** ** The upload route *)


Lemma failed_answered1 (req : Request) (w : World) (e : Multer.Error)
    (d : gmap string N) :
  Variant1.upload (body req) (disk w) = (Multer.Failed e, d) ->
  Variant1.post_upload req w
  = ({| status := 400; json := Message (Multer.message e) |},
     {| disk := d; images := images w |})
  /\ answered_400 w (Variant1.post_upload req w).
Proof.
  intros Hup. unfold Variant1.post_upload. rewrite Hup. cbn.
  split; [done|]. repeat split; cbn; eauto.
Qed.

Lemma failed_answered2 (req : Request) (w : World) (e : Multer.Error)
    (d : gmap string N) :
  Variant2.upload (body req) (disk w) = (Multer.Failed e, d) ->
  Variant2.post_upload req w
  = ({| status := 400; json := Message (Multer.message e) |},
     {| disk := d; images := images w |})
  /\ answered_400 w (Variant2.post_upload req w).
Proof.
  intros Hup. unfold Variant2.post_upload. rewrite Hup. cbn.
  split; [done|]. repeat split; cbn; eauto.
Qed.

(** The callbacks leave the disk as multer left it. *)
Lemma post_upload1_disk (req : Request) (w : World) :
  disk (Variant1.post_upload req w).2 = (Variant1.upload (body req) (disk w)).2.
Proof.
  unfold Variant1.post_upload.
  destruct (Variant1.upload (body req) (disk w)) as [[e|files] d]; [done|].
  unfold Variant1.callback. destruct (no_files files); [done|].
  unfold Image.insertMany. by destruct (db_rejects req).
Qed.

Lemma post_upload2_disk (req : Request) (w : World) :
  disk (Variant2.post_upload req w).2 = (Variant2.upload (body req) (disk w)).2.
Proof.
  unfold Variant2.post_upload.
  destruct (Variant2.upload (body req) (disk w)) as [[e|files] d]; [done|].
  unfold Variant2.callback. destruct (no_files files); [done|].
  unfold Image.insertMany. by destruct (db_rejects req).
Qed.

(** A batch with a part that is not acceptable is turned down by both
    variants. *)
Lemma not_acceptable_answered (req : Request) (w : World) (parts : list Part) :
  body req = Multipart parts ->
  Exists (fun p => ~ acceptable p) parts ->
  answered_400 w (Variant1.post_upload req w) /\
  answered_400 w (Variant2.post_upload req w).
Proof.
  intros Hbody Hex. split.
  - destruct (middleware_rejects Variant1.options parts (disk w)) as (e & d & Hup).
    { eapply Exists_impl; [exact Hex|]. intros p Hp. by rewrite <- acceptable_passes1. }
    rewrite <- Hbody in Hup. by apply (failed_answered1 req w e d).
  - destruct (middleware_rejects Variant2.options parts (disk w)) as (e & d & Hup).
    { eapply Exists_impl; [exact Hex|]. intros p Hp. by rewrite <- acceptable_passes2. }
    rewrite <- Hbody in Hup. by apply (failed_answered2 req w e d).
Qed.






(** C7: a request without files (no multipart body, or a multipart body
    with zero file parts) is answered with status 400 and the no-file
    message; the world is left as it was. *)
Theorem C7_no_files_rejected (req : Request) (w : World) :
  body req = NotMultipart \/ body req = Multipart [] ->
  Variant1.post_upload req w
  = ({| status := 400; json := Message "Keine Datei ausgewählt!" |}, w) /\
  Variant2.post_upload req w
  = ({| status := 400; json := Message "❌ Keine Datei ausgewählt!" |}, w).
Proof.
  unfold Variant1.post_upload, Variant2.post_upload.
  destruct w as [d imgs]. intros [-> | ->]; cbn; done.
Qed.

Lemma C7_witness :
  Variant1.post_upload (request_of [] None) empty_world
  = ({| status := 400; json := Message "Keine Datei ausgewählt!" |}, empty_world) /\
  Variant2.post_upload (request_of [] None) empty_world
  = ({| status := 400; json := Message "❌ Keine Datei ausgewählt!" |}, empty_world).
Proof.
  apply (C7_no_files_rejected (request_of [] None) empty_world).
  right. reflexivity.
Defined.

(** *** Accepted batches *)

Lemma imap_build_descriptors (clock : nat -> N) (names : list string) :
  imap (Image.build clock)
    (map (fun n => {| Image.d_filename := n; Image.d_path := "/uploads/" +:+ n |})
       names)
  = docs_for clock names.
Proof.
  unfold docs_for. revert clock.
  induction names as [|n names IH]; intros clock; cbn; [done|].
  f_equal. apply (IH (clock ∘ S)).
Qed.

Lemma docs_for_paths (clock : nat -> N) (names : list string) :
  map Image.path (docs_for clock names) = map (String.append "/uploads/") names.
Proof.
  unfold docs_for. revert clock.
  induction names as [|n names IH]; intros clock; cbn; [done|].
  f_equal. apply (IH (clock ∘ S)).
Qed.

Lemma docs_for_filenames (clock : nat -> N) (names : list string) :
  map Image.filename (docs_for clock names) = names.
Proof.
  unfold docs_for. revert clock.
  induction names as [|n names IH]; intros clock; cbn; [done|].
  f_equal. apply (IH (clock ∘ S)).
Qed.

(** The path of every document is derived from its file name. *)
Lemma docs_for_path_rule (clock : nat -> N) (names : list string) :
  Forall (fun doc => Image.path doc = "/uploads/" +:+ Image.filename doc)
    (docs_for clock names).
Proof.
  unfold docs_for. revert clock.
  induction names as [|n names IH]; intros clock; cbn; constructor; [done|].
  apply (IH (clock ∘ S)).
Qed.

Lemma descriptors_of_files (files : list File) :
  map descriptor files
  = map (fun n => {| Image.d_filename := n; Image.d_path := "/uploads/" +:+ n |})
      (map filename files).
Proof. by rewrite map_map. Qed.

(** What the callbacks do with a non-empty [req.files]. *)
Lemma callback1_files (req : Request) (w : World) (files : list File) :
  files <> [] ->
  Variant1.callback req w (Multer.Next (Some files))
  = match db_rejects req with
    | None =>
      ({| status := 200;
          json := FilePaths (map (String.append "/uploads/") (map filename files)) |},
       {| disk := disk w;
          images := images w ++ docs_for (clock req) (map filename files) |})
    | Some k =>
      ({| status := 500; json := Message "Fehler beim Speichern der Bilder" |},
       {| disk := disk w;
          images := images w ++ take k (docs_for (clock req) (map filename files)) |})
    end.
Proof.
  intros Hne. unfold Variant1.callback, Image.insertMany. cbn.
  destruct files as [|f files]; [done|]. cbn [length Nat.eqb].
  rewrite descriptors_of_files, imap_build_descriptors, map_map.
  by destruct (db_rejects req).
Qed.

Lemma callback2_files (req : Request) (w : World) (files : list File) :
  files <> [] ->
  Variant2.callback req w (Multer.Next (Some files))
  = match db_rejects req with
    | None =>
      ({| status := 200;
          json := FilePaths (map (String.append "/uploads/") (map filename files)) |},
       {| disk := disk w;
          images := images w ++ docs_for (clock req) (map filename files) |})
    | Some k =>
      ({| status := 500; json := Message "Fehler beim Speichern in der Datenbank" |},
       {| disk := disk w;
          images := images w ++ take k (docs_for (clock req) (map filename files)) |})
    end.
Proof.
  intros Hne. unfold Variant2.callback, Image.insertMany. cbn.
  destruct files as [|f files]; [done|]. cbn [length Nat.eqb].
  rewrite descriptors_of_files, imap_build_descriptors.
  destruct (db_rejects req); [done|]. by rewrite docs_for_paths.
Qed.

(** C9: handed the same non-empty [req.files] and a store that takes the
    batch, the callbacks of the two variants answer alike: the paths the
    first computes from the files are the paths the second reads off the
    documents the batch insert returns. *)
Theorem C9_variants_agree_on_success (req : Request) (w : World)
    (files : list File) (savedImages coll : list Image.Doc) :
  files <> [] ->
  Image.insertMany (clock req) (db_rejects req) (map descriptor files) (images w)
  = (Some savedImages, coll) ->
  map (fun file => "/uploads/" +:+ filename file) files
  = map Image.path savedImages
  /\ Variant1.callback req w (Multer.Next (Some files))
     = ({| status := 200;
           json := FilePaths (map (fun file => "/uploads/" +:+ filename file) files) |},
        {| disk := disk w; images := coll |})
  /\ Variant2.callback req w (Multer.Next (Some files))
     = ({| status := 200; json := FilePaths (map Image.path savedImages) |},
        {| disk := disk w; images := coll |}).
Proof.
  intros Hne Hins.
  assert (Hno : no_files (Some files) = false) by (by destruct files).
  unfold Variant1.callback, Variant2.callback. rewrite Hno. cbn [files_of].
  rewrite Hins.
  split; [|done].
  unfold Image.insertMany in Hins. destruct (db_rejects req); [done|].
  injection Hins as <- _.
  by rewrite descriptors_of_files, imap_build_descriptors, docs_for_paths, map_map.
Qed.

Lemma C9_witness :
  let files := [stored Variant2.options twin_a; stored Variant2.options oversized] in
  let req := request_of [] None in
  let saved := docs_for (clock req) (map filename files) in
  files <> [] /\
  Variant1.callback req empty_world (Multer.Next (Some files))
  = Variant2.callback req empty_world (Multer.Next (Some files)).
Proof.
  intros files req saved. split; [done|].
  destruct (C9_variants_agree_on_success req empty_world files saved saved)
    as (Hpaths & H1 & H2); [done|reflexivity|].
  rewrite H1, H2, Hpaths. reflexivity.
Defined.

(** C4: a batch of [n] acceptable files, at most ten, that the store takes
    is answered with status 200 and [filePaths] holding, for each file in
    the order of the request, ["/uploads/"] followed by its storage name;
    the documents added to the collection carry the same names and paths. *)
Theorem C4_accepted_batch_paths (req : Request) (w : World) (parts : list Part) :
  body req = Multipart parts ->
  parts <> [] -> (length parts <= 10)%nat -> Forall acceptable parts ->
  db_rejects req = None ->
  (let names := map Variant1.storage_filename parts in
   let r := Variant1.post_upload req w in
   r.1 = {| status := 200; json := FilePaths (map (String.append "/uploads/") names) |}
   /\ length names = length parts
   /\ images r.2 = images w ++ docs_for (clock req) names)
  /\
  (let names := map Variant2.storage_filename parts in
   let r := Variant2.post_upload req w in
   r.1 = {| status := 200; json := FilePaths (map (String.append "/uploads/") names) |}
   /\ length names = length parts
   /\ images r.2 = images w ++ docs_for (clock req) names).
Proof.
  intros Hbody Hne Hlen Hacc Hdb. split; cbn zeta.
  - unfold Variant1.post_upload, Variant1.upload. rewrite Hbody.
    rewrite process_all_pass by (by apply acceptable_all1 || done).
    rewrite callback1_files by (by apply stored_nonempty).
    rewrite Hdb, filenames_stored. cbn. by rewrite length_map.
  - unfold Variant2.post_upload, Variant2.upload. rewrite Hbody.
    rewrite process_all_pass by (by apply acceptable_all2 || done).
    rewrite callback2_files by (by apply stored_nonempty).
    rewrite Hdb, filenames_stored. cbn. by rewrite length_map.
Qed.

Lemma C4_witness :
  (Variant1.post_upload (request_of [twin_a; gif_file] None) empty_world).1
  = {| status := 200;
       json := FilePaths ["/uploads/1700000000000.png";
                          "/uploads/1700000000003.gif"] |}.
Proof.
  destruct (C4_accepted_batch_paths (request_of [twin_a; gif_file] None)
              empty_world [twin_a; gif_file]) as [(H1 & _) _].
  - reflexivity.
  - done.
  - cbn; lia.
  - repeat constructor; by vm_compute.
  - reflexivity.
  - exact H1.
Defined.

(** C8: when the store rejects the batch insert of an accepted batch, the
    answer is status 500, and the disk is left as the storage wrote it:
    every file of the batch still has its blob. *)
Theorem C8_insert_failure_keeps_blobs (req : Request) (w : World)
    (parts : list Part) (k : nat) :
  body req = Multipart parts ->
  parts <> [] -> (length parts <= 10)%nat -> Forall acceptable parts ->
  db_rejects req = Some k ->
  (let r := Variant1.post_upload req w in
   r.1 = {| status := 500; json := Message "Fehler beim Speichern der Bilder" |}
   /\ disk r.2 = (Variant1.upload (body req) (disk w)).2
   /\ disk r.2 = foldl (write Variant1.options) (disk w) parts
   /\ forall p, p ∈ parts -> is_Some (disk r.2 !! Variant1.storage_filename p))
  /\
  (let r := Variant2.post_upload req w in
   r.1 = {| status := 500; json := Message "Fehler beim Speichern in der Datenbank" |}
   /\ disk r.2 = (Variant2.upload (body req) (disk w)).2
   /\ disk r.2 = foldl (write Variant2.options) (disk w) parts
   /\ forall p, p ∈ parts -> is_Some (disk r.2 !! Variant2.storage_filename p)).
Proof.
  intros Hbody Hne Hlen Hacc Hdb. split; cbn zeta.
  - unfold Variant1.post_upload, Variant1.upload. rewrite Hbody.
    rewrite process_all_pass by (by apply acceptable_all1 || done).
    rewrite callback1_files by (by apply stored_nonempty).
    rewrite Hdb. cbn. repeat split.
    intros p Hp. by apply (written_present Variant1.options).
  - unfold Variant2.post_upload, Variant2.upload. rewrite Hbody.
    rewrite process_all_pass by (by apply acceptable_all2 || done).
    rewrite callback2_files by (by apply stored_nonempty).
    rewrite Hdb. cbn. repeat split.
    intros p Hp. by apply (written_present Variant2.options).
Qed.

Lemma C8_witness :
  let r := Variant2.post_upload (request_of [twin_a; gif_file] (Some 0%nat))
             empty_world in
  status r.1 = 500%N /\ is_Some (disk r.2 !! "1700000000003.gif").
Proof.
  destruct (C8_insert_failure_keeps_blobs
              (request_of [twin_a; gif_file] (Some 0%nat))
              empty_world [twin_a; gif_file] 0) as [_ (H1 & _ & _ & H4)].
  - reflexivity.
  - done.
  - cbn; lia.
  - repeat constructor; by vm_compute.
  - reflexivity.
  - cbn zeta. split; [by rewrite H1|].
    apply (H4 gif_file). apply list_elem_of_further, list_elem_of_here.
Defined.

(** *** The size limit *)




(** *** The form field *)

(** C10: a multipart request with a file under a form field other than
    [images] is rejected with status 400 and creates no document; when
    that file is the first of the batch to fail a check, the message is
    that of multer's unexpected-file error. *)
Theorem C10_other_field_rejected (req : Request) (w : World)
    (parts : list Part) :
  body req = Multipart parts ->
  Exists (fun p => fieldname p <> "images") parts ->
  answered_400 w (Variant1.post_upload req w) /\
  answered_400 w (Variant2.post_upload req w) /\
  (forall pre p post,
     parts = pre ++ p :: post -> Forall acceptable pre ->
     fieldname p <> "images" ->
     json (Variant1.post_upload req w).1 = Message "Unexpected field" /\
     json (Variant2.post_upload req w).1 = Message "Unexpected field").
Proof.
  intros Hbody Hex.
  destruct (not_acceptable_answered req w parts Hbody) as [R1 R2].
  { eapply Exists_impl; [exact Hex|]. intros p Hp (Hf & _). done. }
  split; [done|]. split; [done|].
  intros pre p post -> Hpre Hp.
  destruct (process_unexpected Variant1.options pre p post 10%nat [] (disk w)
              (acceptable_all1 pre Hpre) Hp) as [x1 H1].
  destruct (process_unexpected Variant2.options pre p post 10%nat [] (disk w)
              (acceptable_all2 pre Hpre) Hp) as [x2 H2].
  unfold Variant1.post_upload, Variant2.post_upload,
    Variant1.upload, Variant2.upload.
  rewrite Hbody. cbn [Multer.middleware Multer.maxCount Variant1.options
                      Variant2.options].
  destruct (Multer.process Variant1.options _ _ _ _) as [o1 d1].
  destruct (Multer.process Variant2.options _ _ _ _) as [o2 d2].
  cbn in H1, H2. subst o1 o2. done.
Qed.

Lemma C10_witness :
  fieldname misfiled <> "images" /\
  (Variant1.post_upload (request_of [misfiled; late_gif] None) empty_world).1
  = {| status := 400; json := Message "Unexpected field" |}.
Proof.
  split; [done|].
  destruct (C10_other_field_rejected (request_of [misfiled; late_gif] None)
              empty_world [misfiled; late_gif]) as ((Hst & _) & _ & Hmsg).
  - reflexivity.
  - by apply Exists_cons_hd.
  - destruct (Hmsg [] misfiled [late_gif]) as [H1 _]; [reflexivity|constructor|done|].
    destruct (Variant1.post_upload _ _).1 as [st js]. cbn in Hst, H1.
    by rewrite Hst, H1.
Defined.

(** ** The listing route *)

Lemma insert_desc_perm (x : Image.Doc) (l : list Image.Doc) :
  insert_desc x l ≡ₚ x :: l.
Proof.
  induction l as [|y l IH]; cbn; [done|].
  destruct (_ <=? _)%N; [done|].
  rewrite IH. apply Permutation_swap.
Qed.

Lemma spec_listAll_perm (coll : list Image.Doc) : spec_listAll coll ≡ₚ coll.
Proof.
  induction coll as [|x coll IH]; cbn; [done|].
  by rewrite insert_desc_perm, IH.
Qed.

Lemma insert_desc_hd (a x : Image.Doc) (l : list Image.Doc) :
  HdRel Image.not_older a l -> Image.not_older a x ->
  HdRel Image.not_older a (insert_desc x l).
Proof.
  intros Hl Hx. destruct l as [|y l]; cbn; [by constructor|].
  destruct (_ <=? _)%N; constructor; [done|]. by inversion Hl.
Qed.

Lemma insert_desc_sorted (x : Image.Doc) (l : list Image.Doc) :
  Sorted Image.not_older l -> Sorted Image.not_older (insert_desc x l).
Proof.
  induction 1 as [|y l Hsorted IH Hhd]; cbn; [by repeat constructor|].
  destruct (N.leb_spec (Image.uploadedAt y) (Image.uploadedAt x)) as [Hle|Hlt].
  - constructor; [by constructor|]. by constructor.
  - constructor; [done|]. apply insert_desc_hd; [done|].
    unfold Image.not_older. lia.
Qed.

Lemma spec_listAll_sorted (coll : list Image.Doc) :
  Sorted Image.not_older (spec_listAll coll).
Proof.
  induction coll as [|x coll IH]; cbn; [constructor|].
  by apply insert_desc_sorted.
Qed.

Lemma insertion_order_engine_honours : Image.honours_sort insertion_order_engine.
Proof.
  intros coll. split; [apply spec_listAll_perm|apply spec_listAll_sorted].
Qed.

Lemma reverse_order_engine_honours : Image.honours_sort reverse_order_engine.
Proof.
  intros coll. unfold Image.find_sort_desc, reverse_order_engine. split.
  - by rewrite spec_listAll_perm, reverse_Permutation.
  - apply spec_listAll_sorted.
Qed.

Lemma sorted_strongly (l : list Image.Doc) :
  Sorted Image.not_older l -> StronglySorted Image.not_older l.
Proof.
  apply Sorted.Sorted_StronglySorted.
  unfold Image.not_older. intros a b c ? ?. lia.
Qed.

(** Documents with pairwise distinct [uploadedAt] are told apart by it. *)
Lemma uploadedAt_identifies (coll : list Image.Doc) (a b : Image.Doc) :
  NoDup (map Image.uploadedAt coll) -> a ∈ coll -> b ∈ coll ->
  Image.uploadedAt a = Image.uploadedAt b -> a = b.
Proof.
  induction coll as [|c coll IH]; intros Hnd Ha Hb Heq.
  - by apply elem_of_nil in Ha.
  - cbn in Hnd. apply NoDup_cons in Hnd as [Hc Hnd].
    assert (Hin : forall d, d ∈ coll ->
                    Image.uploadedAt d ∈ map Image.uploadedAt coll).
    { intros d Hd. apply list_elem_of_In, in_map. by apply list_elem_of_In. }
    apply elem_of_cons in Ha as [->|Ha]; apply elem_of_cons in Hb as [->|Hb].
    + done.
    + destruct Hc. rewrite Heq. by apply Hin.
    + destruct Hc. rewrite <- Heq. by apply Hin.
    + by apply IH.
Qed.

(** Whatever engine honours the sort key, the listing route answers with
    the paths of all documents, most recent first; when no two documents
    share their [uploadedAt], every such engine gives the same listing. *)
Lemma get_images_honouring (E : Image.Engine) (req : Request) (w : World) :
  Image.honours_sort E -> query_fails req = false ->
  exists listing,
    get_images req w
    = {| status := 200; json := FilePaths (map Image.path listing) |}
    /\ listing ≡ₚ images w
    /\ Sorted Image.not_older listing
    /\ (NoDup (map Image.uploadedAt (images w)) ->
        listing = spec_listAll (images w)).
Proof.
  intros Hsort Hq. exists (Image.find_sort_desc (images w)).
  destruct (Hsort (images w)) as [Hperm Hsorted].
  unfold get_images. rewrite Hq. repeat split; [done..|].
  intros Hnd.
  apply (StronglySorted_unique_strong Image.not_older).
  - intros a b Ha Hb Hab Hba.
    apply (uploadedAt_identifies (images w)); [done| | |].
    + by rewrite <- Hperm.
    + by rewrite <- (spec_listAll_perm (images w)).
    + unfold Image.not_older in Hab, Hba. lia.
  - by apply sorted_strongly.
  - apply sorted_strongly, spec_listAll_sorted.
  - by rewrite Hperm, spec_listAll_perm.
Qed.

(** Inserting a document leaves the documents of every [uploadedAt] in
    the order they had, the new one first among its equals. *)
Lemma insert_desc_stable (t : N) (x : Image.Doc) (l : list Image.Doc) :
  filter (fun d => Image.uploadedAt d = t) (insert_desc x l)
  = filter (fun d => Image.uploadedAt d = t) (x :: l).
Proof.
  induction l as [|y l IH]; cbn [insert_desc]; [done|].
  destruct (N.leb_spec (Image.uploadedAt y) (Image.uploadedAt x)) as [Hle|Hlt];
    [done|].
  rewrite (filter_cons _ y (insert_desc x l)), IH.
  rewrite !filter_cons.
  destruct (decide (Image.uploadedAt y = t)) as [Hy|Hy],
           (decide (Image.uploadedAt x = t)) as [Hx|Hx]; try done.
  lia.
Qed.

Lemma spec_listAll_stable (t : N) (coll : list Image.Doc) :
  filter (fun d => Image.uploadedAt d = t) (spec_listAll coll)
  = filter (fun d => Image.uploadedAt d = t) coll.
Proof.
  induction coll as [|x coll IH]; [done|].
  cbn [spec_listAll foldr]. rewrite insert_desc_stable.
  rewrite !filter_cons. fold (spec_listAll coll). by rewrite IH.
Qed.

(** C5: whatever documents the collection holds, the listing route answers
    with the paths of all of them, most recent first, and the documents of
    every one [uploadedAt] are listed in the order in which they were
    inserted.  The handler asks the store for the sort and maps each
    document to its path; the store is the one modelled from the
    specification. *)
Theorem C5_listing_newest_first (req : Request) (w : World) :
  query_fails req = false ->
  exists listing,
    get_images (E := insertion_order_engine) req w
    = {| status := 200; json := FilePaths (map Image.path listing) |}
    /\ listing ≡ₚ images w
    /\ Sorted Image.not_older listing
    /\ (forall t, filter (fun d => Image.uploadedAt d = t) listing
                  = filter (fun d => Image.uploadedAt d = t) (images w)).
Proof.
  intros Hq. exists (spec_listAll (images w)).
  unfold get_images. rewrite Hq. split; [done|]. split; [|split].
  - apply spec_listAll_perm.
  - apply spec_listAll_sorted.
  - intros t. apply spec_listAll_stable.
Qed.

Lemma C5_witness :
  let w := (Variant2.post_upload (request_of [twin_a; gif_file] None) empty_world).2 in
  exists listing,
    get_images (E := insertion_order_engine) (request_of [] None) w
    = {| status := 200; json := FilePaths (map Image.path listing) |}
    /\ listing ≡ₚ images w.
Proof.
  intros w.
  destruct (C5_listing_newest_first (request_of [] None) w eq_refl)
    as (l & H1 & H2 & _).
  exists l. exact (conj H1 H2).
Defined.

(** Two documents built within the same millisecond are listed in the
    order of their insertion. *)
Example listing_keeps_ties_in_order :
  let w := (Variant2.post_upload (request_of [twin_a; gif_file] None) empty_world).2 in
  get_images (E := insertion_order_engine) (request_of [] None) w
  = {| status := 200;
       json := FilePaths ["/uploads/1700000000000.png";
                          "/uploads/1700000000003.gif"] |}.
Proof. by vm_compute. Qed.

Example extname_png : Path.extname "Foto.PNG" = ".PNG".
Proof. reflexivity. Qed.
Example extname_last_dot : Path.extname "archive.tar.gz" = ".gz".
Proof. reflexivity. Qed.
Example extname_dotfile : Path.extname ".bashrc" = "".
Proof. reflexivity. Qed.
Example extname_dotdot : Path.extname "bilder/.." = "".
Proof. reflexivity. Qed.
Example extname_trailing_dot : Path.extname "bild." = ".".
Proof. reflexivity. Qed.
Example extname_trailing_slash : Path.extname "a/b.png/" = ".png".
Proof. reflexivity. Qed.
Example basename_dir : Path.basename "a/b.png/" = "b.png".
Proof. reflexivity. Qed.
Example number_to_string_now :
  JS.number_to_string 1700000000000 = "1700000000000".
Proof. reflexivity. Qed.

(** ** The scenarios of the specification *)

Example scenario_A_one_png :
  (Variant1.post_upload (request_of [twin_a] None) empty_world).1
  = {| status := 200; json := FilePaths ["/uploads/1700000000000.png"] |}.
Proof. by vm_compute. Qed.

Example scenario_B_three_megabytes :
  Variant1.post_upload (request_of [oversized] None) empty_world
  = ({| status := 400; json := Message "File too large" |}, empty_world).
Proof. by vm_compute. Qed.

Example scenario_C_text_as_png :
  Variant1.post_upload
    (request_of [{| fieldname := "images"; originalname := "brief.png";
                    mimetype := "text/plain"; size := 1000;
                    named_at := 1700000000004; late := Unseen |}] None) empty_world
  = ({| status := 400; json := Message "Nur JPG, PNG, GIF erlaubt!" |},
     empty_world).
Proof. by vm_compute. Qed.

Example scenario_D_eleven_files :
  Variant2.post_upload (request_of (replicate 11 gif_file) None) empty_world
  = ({| status := 400; json := Message "Unexpected field" |}, empty_world).
Proof. by vm_compute. Qed.

Lemma scenario_E_empty_store (E : Image.Engine) (req : Request) :
  Image.honours_sort E -> query_fails req = false ->
  get_images req empty_world = {| status := 200; json := FilePaths [] |}.
Proof.
  intros Hsort Hq. unfold get_images. rewrite Hq.
  destruct (Hsort []) as [Hperm _]. apply Permutation_nil_r in Hperm.
  cbn. by rewrite Hperm.
Qed.

Example scenario_F_two_files_listed :
  let req := {| body := Multipart [twin_a; gif_file];
                clock := fun i => (1700000000005 + N.of_nat i)%N;
                db_rejects := None; query_fails := false |} in
  let w := (Variant1.post_upload req empty_world).2 in
  get_images (E := insertion_order_engine) (request_of [] None) w
  = {| status := 200;
       json := FilePaths ["/uploads/1700000000003.gif";
                          "/uploads/1700000000000.png"] |}.
Proof. by vm_compute. Qed.

(** * Further properties *)

(** ** The upload route as a whole *)

Section Route.
Variable o : Multer.Options.
Variable cb : Request -> World -> Multer.Outcome -> Response * World.
Variables no_file_msg db_msg : string.

Hypothesis cb_failed : forall req w e,
  cb req w (Multer.Failed e)
  = ({| status := 400; json := Message (Multer.message e) |}, w).
Hypothesis cb_no_files : forall req w files,
  no_files files = true ->
  cb req w (Multer.Next files)
  = ({| status := 400; json := Message no_file_msg |}, w).
Hypothesis cb_files : forall req w files,
  files <> [] ->
  cb req w (Multer.Next (Some files))
  = match db_rejects req with
    | None =>
      ({| status := 200;
          json := FilePaths (map (String.append "/uploads/") (map filename files)) |},
       {| disk := disk w;
          images := images w ++ docs_for (clock req) (map filename files) |})
    | Some k =>
      ({| status := 500; json := Message db_msg |},
       {| disk := disk w;
          images := images w ++ take k (docs_for (clock req) (map filename files)) |})
    end.

(** More passing files than the count allows: the first one beyond it is
    unexpected. *)
Lemma process_too_many (parts : list Part) :
  forall left up d,
    Forall (passes o) parts -> (left < length parts)%nat ->
    exists x, (Multer.process o parts left up d).1
              = Multer.Failed (Multer.LIMIT_UNEXPECTED_FILE x).
Proof.
  induction parts as [|p rest IH]; intros left up d Hall Hlen; cbn in Hlen;
    [lia|].
  inversion Hall as [|? ? (Hf & Hv & Hs) Hall']; subst. cbn.
  unfold Multer.files_left. rewrite Hf, String.eqb_refl.
  destruct (Nat.leb_spec left 0) as [?|Hpos]; [by eexists|].
  rewrite Hv. destruct (N.ltb_spec (Multer.fileSize o) (size p)); [lia|].
  apply IH; [done|lia].
Qed.

Lemma route_accepted (req : Request) (w : World) (parts : list Part) :
  body req = Multipart parts -> parts <> [] ->
  (length parts <= Multer.maxCount o)%nat -> Forall (passes o) parts ->
  let names := map (Multer.storage_filename o) parts in
  route o cb req w
  = match db_rejects req with
    | None =>
      ({| status := 200; json := FilePaths (map (String.append "/uploads/") names) |},
       {| disk := foldl (write o) (disk w) parts;
          images := images w ++ docs_for (clock req) names |})
    | Some k =>
      ({| status := 500; json := Message db_msg |},
       {| disk := foldl (write o) (disk w) parts;
          images := images w ++ take k (docs_for (clock req) names) |})
    end.
Proof.
  intros Hbody Hne Hlen Hall names. unfold route. rewrite Hbody.
  rewrite process_all_pass by done.
  rewrite cb_files by (by apply stored_nonempty).
  by rewrite filenames_stored.
Qed.

Lemma route_turned_down (req : Request) (w : World) :
  ~ accepted_by o req ->
  exists m d, route o cb req w
              = ({| status := 400; json := Message m |},
                 {| disk := d; images := images w |})
              /\ ((forall parts, body req = Multipart parts ->
                                 Forall (fun q => late q = Unseen) parts) ->
                  d ⊆ disk w).
Proof.
  intros Hnot. unfold route.
  destruct (body req) as [|parts] eqn:Hbody.
  { cbn. rewrite cb_no_files by done. by eexists _, _. }
  destruct parts as [|p0 rest].
  { cbn. rewrite cb_no_files by done. by eexists _, _. }
  set (parts := p0 :: rest) in *.
  destruct (Multer.middleware o (Multipart parts) (disk w)) as [out d] eqn:Hrun.
  assert (Hfail : exists e, out = Multer.Failed e).
  { destruct (decide (Forall (passes o) parts)) as [Hall|Hsome].
    - destruct (process_too_many parts (Multer.maxCount o) [] (disk w) Hall)
        as [x Hx].
      + destruct (Nat.lt_ge_cases (Multer.maxCount o) (length parts))
          as [?|Hlen]; [done|].
        destruct Hnot. exists parts. by repeat split.
      + change (Multer.process o parts (Multer.maxCount o) [] (disk w))
          with (Multer.middleware o (Multipart parts) (disk w)) in Hx.
        rewrite Hrun in Hx. by eexists.
    - apply not_Forall_Exists in Hsome; [|apply _].
      destruct (middleware_rejects o parts (disk w) Hsome) as (e & d' & He).
      rewrite Hrun in He. injection He as -> _. by eexists. }
  destruct Hfail as [e ->]. rewrite cb_failed.
  eexists _, _. split; [done|]. intros Hun.
  eapply middleware_failed_disk; [by apply Hun|exact Hrun].
Qed.

(** More passing files than the count allows: the files stored before the
    count ran out are unlinked and nothing else is written. *)
Lemma process_too_many_disk (parts : list Part) (d0 : gmap string N) :
  forall room up d,
    Forall (passes o) parts -> (room < length parts)%nat ->
    Multer.remove_uploaded up d ⊆ d0 ->
    (Multer.process o parts room up d).2 ⊆ d0.
Proof.
  induction parts as [|p rest IH]; intros room up d Hall Hlen Hinv;
    cbn in Hlen; [lia|].
  inversion Hall as [|? ? (Hf & Hv & Hs) Hall']; subst. cbn [Multer.process].
  unfold Multer.files_left. rewrite Hf, String.eqb_refl.
  destruct (Nat.leb_spec room 0) as [Hroom|Hroom].
  { assert (room = 0%nat) as -> by lia. cbn [snd]. by rewrite abort_no_room. }
  rewrite Hv. destruct (N.ltb_spec (Multer.fileSize o) (size p)); [lia|].
  apply IH; [done|lia|]. etrans; [|exact Hinv].
  apply (remove_uploaded_snoc up
           {| part := p; filename := Multer.storage_filename o p;
              written := size p |}).
Qed.

Lemma accepted_by_dec (req : Request) : accepted_by o req \/ ~ accepted_by o req.
Proof.
  unfold accepted_by. destruct (body req) as [|parts].
  { right. by intros (parts & ? & _). }
  destruct (decide (parts <> [] /\ (length parts <= Multer.maxCount o)%nat
                    /\ Forall (passes o) parts)) as [H|H].
  - left. by exists parts.
  - right. intros (parts' & [= <-] & H'). by apply H.
Qed.

(** The three answers of the route. *)
Lemma route_status (req : Request) (w : World) :
  (status (route o cb req w).1 = 200%N <-> accepted_by o req /\ db_rejects req = None)
  /\ (status (route o cb req w).1 = 500%N
      <-> accepted_by o req /\ db_rejects req <> None)
  /\ (status (route o cb req w).1 = 400%N <-> ~ accepted_by o req).
Proof.
  destruct (accepted_by_dec req) as [Hacc|Hnot].
  - destruct Hacc as (parts & Hbody & Hne & Hlen & Hall).
    assert (Hacc : accepted_by o req) by (by exists parts).
    rewrite (route_accepted req w parts Hbody Hne Hlen Hall).
    destruct (db_rejects req); cbn; (repeat split; try done);
      try (by intros [_ ?]); by intros [].
  - destruct (route_turned_down req w Hnot) as (m & d & -> & _). cbn.
    repeat split; try done; by intros [? _].
Qed.

(** The route only ever appends to the collection. *)
Lemma route_appends (req : Request) (w : World) :
  images w `prefix_of` images (route o cb req w).2.
Proof.
  destruct (accepted_by_dec req) as [(parts & Hbody & Hne & Hlen & Hall)|Hnot].
  - rewrite (route_accepted req w parts Hbody Hne Hlen Hall).
    destruct (db_rejects req); cbn; by apply prefix_app_r.
  - by destruct (route_turned_down req w Hnot) as (m & d & -> & _).
Qed.

Lemma docs_for_take_path_rule (clock : nat -> N) (names : list string) (k : nat) :
  path_rule (take k (docs_for clock names)).
Proof. apply Forall_take, docs_for_path_rule. Qed.

(** The route keeps the path rule. *)
Lemma route_path_rule (req : Request) (w : World) :
  path_rule (images w) -> path_rule (images (route o cb req w).2).
Proof.
  intros Hrule.
  destruct (accepted_by_dec req) as [(parts & Hbody & Hne & Hlen & Hall)|Hnot].
  - rewrite (route_accepted req w parts Hbody Hne Hlen Hall).
    destruct (db_rejects req); cbn; apply Forall_app; split; try done.
    + apply docs_for_take_path_rule.
    + apply docs_for_path_rule.
  - by destruct (route_turned_down req w Hnot) as (m & d & -> & _).
Qed.

(** After the answer 200 every path answered has its blob on disk. *)
Lemma route_200_blobs (req : Request) (w : World) :
  status (route o cb req w).1 = 200%N ->
  exists paths, json (route o cb req w).1 = FilePaths paths /\
    forall name, "/uploads/" +:+ name ∈ paths ->
                 is_Some (disk (route o cb req w).2 !! name).
Proof.
  intros Hst.
  destruct (proj1 (proj1 (route_status req w)) Hst)
    as [(parts & Hbody & Hne & Hlen & Hall) Hdb].
  rewrite (route_accepted req w parts Hbody Hne Hlen Hall), Hdb. cbn.
  eexists. split; [done|]. intros name Hin.
  apply list_elem_of_In, in_map_iff in Hin as (n & Heq & Hin).
  apply (inj (String.append "/uploads/")) in Heq. subst n.
  apply in_map_iff in Hin as (p & <- & Hin).
  apply written_present. by apply list_elem_of_In.
Qed.

(** After the answer 200 the listing holds the paths listed before and the
    paths answered. *)
Lemma route_200_listed (E : Image.Engine) (req req' : Request) (w : World) :
  Image.honours_sort E -> query_fails req' = false ->
  status (route o cb req w).1 = 200%N ->
  exists before paths after,
    get_images req' w = {| status := 200; json := FilePaths before |} /\
    json (route o cb req w).1 = FilePaths paths /\
    get_images req' (route o cb req w).2
    = {| status := 200; json := FilePaths after |} /\
    after ≡ₚ before ++ paths.
Proof.
  intros Hsort Hq Hst.
  destruct (proj1 (proj1 (route_status req w)) Hst)
    as [(parts & Hbody & Hne & Hlen & Hall) Hdb].
  rewrite (route_accepted req w parts Hbody Hne Hlen Hall), Hdb. cbn.
  unfold get_images. rewrite Hq. cbn.
  eexists _, _, _. repeat split.
  destruct (Hsort (images w)) as [H1 _].
  destruct (Hsort (images w ++ docs_for (clock req)
                     (map (Multer.storage_filename o) parts))) as [H2 _].
  rewrite <- (docs_for_paths (clock req)), <- map_app.
  apply Permutation_map. by rewrite H2, H1.
Qed.

(** A part that does not pass decides the outcome handed to the route:
    what follows it in the body has no part in it. *)
Lemma process_outcome_at_failure (pre : list Part) (p : Part)
    (post1 post2 : list Part) :
  forall left up d,
    ~ passes o p ->
    (Multer.process o (pre ++ p :: post1) left up d).1
    = (Multer.process o (pre ++ p :: post2) left up d).1.
Proof.
  induction pre as [|q pre IH]; intros left up d Hp; cbn.
  - unfold Multer.files_left.
    destruct (String.eqb_spec (fieldname p) (Multer.field o)) as [Hf|Hf];
      [|done].
    destruct (_ <=? _)%nat; [done|].
    destruct (Multer.fileFilter o p) eqn:Hv; [|done].
    destruct (N.ltb_spec (Multer.fileSize o) (size p)) as [?|Hs]; [done|].
    destruct Hp. by repeat split.
  - destruct (_ <=? _)%nat; [done|].
    destruct (Multer.fileFilter o q); [|done].
    destruct (_ <? _)%N; [done|]. by apply IH.
Qed.

Lemma route_answer_at_failure (req1 req2 : Request) (w : World)
    (pre : list Part) (p : Part) (post1 post2 : list Part) :
  body req1 = Multipart (pre ++ p :: post1) ->
  body req2 = Multipart (pre ++ p :: post2) ->
  ~ passes o p ->
  (route o cb req1 w).1 = (route o cb req2 w).1 /\
  images (route o cb req1 w).2 = images (route o cb req2 w).2.
Proof.
  intros H1 H2 Hp.
  assert (Hn1 : ~ accepted_by o req1).
  { intros (parts & Hb & _ & _ & Hall). rewrite H1 in Hb. injection Hb as <-.
    apply Forall_app in Hall as [_ Hall]. by inversion Hall. }
  destruct (route_turned_down req1 w Hn1) as (m & d & Hr1 & _).
  assert (Hout := process_outcome_at_failure pre p post1 post2
                    (Multer.maxCount o) [] (disk w) Hp).
  unfold route in *. rewrite H1 in Hr1. rewrite H1, H2. cbn in *.
  destruct (Multer.process o (pre ++ p :: post1) _ _ _) as [out1 d1].
  destruct (Multer.process o (pre ++ p :: post2) _ _ _) as [out2 d2].
  cbn in Hout. subst out2. destruct out1 as [e|files].
  - by rewrite !cb_failed.
  - destruct (no_files files) eqn:Hno.
    + by rewrite !cb_no_files.
    + destruct files as [files|]; [|done].
      rewrite cb_files in Hr1 by (by destruct files).
      by destruct (db_rejects req1).
Qed.

(** When no part is handled after the error, what follows the failing
    part changes nothing at all. *)
Lemma process_stops_at_failure (pre : list Part) (p : Part)
    (post1 post2 : list Part) :
  forall left up d,
    ~ passes o p ->
    Forall (fun q => late q = Unseen) (pre ++ p :: post1) ->
    Forall (fun q => late q = Unseen) (pre ++ p :: post2) ->
    Multer.process o (pre ++ p :: post1) left up d
    = Multer.process o (pre ++ p :: post2) left up d.
Proof.
  induction pre as [|q pre IH]; intros left up d Hp Hu1 Hu2;
    inversion Hu1 as [|? ? _ Hu1']; inversion Hu2 as [|? ? _ Hu2']; subst;
    cbn [app Multer.process]; rewrite !abort_unseen by done.
  - unfold Multer.files_left.
    destruct (String.eqb_spec (fieldname p) (Multer.field o)) as [Hf|Hf];
      [|done].
    destruct (_ <=? _)%nat; [done|].
    destruct (Multer.fileFilter o p) eqn:Hv; [|done].
    destruct (N.ltb_spec (Multer.fileSize o) (size p)) as [?|Hs]; [done|].
    destruct Hp. by repeat split.
  - destruct (_ <=? _)%nat; [done|].
    destruct (Multer.fileFilter o q); [|done].
    destruct (_ <? _)%N; [done|]. by apply IH.
Qed.

Lemma route_stops_at_failure (req1 req2 : Request) (w : World)
    (pre : list Part) (p : Part) (post1 post2 : list Part) :
  body req1 = Multipart (pre ++ p :: post1) ->
  body req2 = Multipart (pre ++ p :: post2) ->
  ~ passes o p ->
  Forall (fun q => late q = Unseen) (pre ++ p :: post1) ->
  Forall (fun q => late q = Unseen) (pre ++ p :: post2) ->
  route o cb req1 w = route o cb req2 w.
Proof.
  intros H1 H2 Hp Hu1 Hu2.
  assert (Hn1 : ~ accepted_by o req1).
  { intros (parts & Hb & _ & _ & Hall). rewrite H1 in Hb. injection Hb as <-.
    apply Forall_app in Hall as [_ Hall]. by inversion Hall. }
  destruct (route_turned_down req1 w Hn1) as (m & d & Hr1 & _).
  unfold route in *. rewrite H1 in Hr1. rewrite H1, H2. cbn in *.
  rewrite (process_stops_at_failure pre p post1 post2) in * by done.
  destruct (Multer.process o (pre ++ p :: post2) _ _ _) as [[e|files] d'].
  - by rewrite !cb_failed.
  - destruct (no_files files) eqn:Hno.
    + by rewrite !cb_no_files.
    + destruct files as [files|]; [|done].
      rewrite cb_files in Hr1 by (by destruct files).
      by destruct (db_rejects req1).
Qed.

End Route.

(** *** The two routes are instances *)

Lemma post_upload1_route :
  Variant1.post_upload = route Variant1.options Variant1.callback.
Proof. reflexivity. Qed.

Lemma post_upload2_route :
  Variant2.post_upload = route Variant2.options Variant2.callback.
Proof. reflexivity. Qed.

Lemma callback1_failed (req : Request) (w : World) (e : Multer.Error) :
  Variant1.callback req w (Multer.Failed e)
  = ({| status := 400; json := Message (Multer.message e) |}, w).
Proof. reflexivity. Qed.

Lemma callback2_failed (req : Request) (w : World) (e : Multer.Error) :
  Variant2.callback req w (Multer.Failed e)
  = ({| status := 400; json := Message (Multer.message e) |}, w).
Proof. reflexivity. Qed.

Lemma callback1_no_files (req : Request) (w : World) (files : option (list File)) :
  no_files files = true ->
  Variant1.callback req w (Multer.Next files)
  = ({| status := 400; json := Message "Keine Datei ausgewählt!" |}, w).
Proof. intros H. unfold Variant1.callback. by rewrite H. Qed.

Lemma callback2_no_files (req : Request) (w : World) (files : option (list File)) :
  no_files files = true ->
  Variant2.callback req w (Multer.Next files)
  = ({| status := 400; json := Message "❌ Keine Datei ausgewählt!" |}, w).
Proof. intros H. unfold Variant2.callback. by rewrite H. Qed.

Lemma accepted_request_by1 (req : Request) :
  accepted_request req <-> accepted_by Variant1.options req.
Proof.
  unfold accepted_request, accepted_by. cbn.
  split; intros (parts & ? & ? & ? & Hall); exists parts; repeat split; try done.
  - by apply acceptable_all1.
  - eapply Forall_impl; [exact Hall|]. intros p. apply acceptable_passes1.
Qed.

Lemma accepted_request_by2 (req : Request) :
  accepted_request req <-> accepted_by Variant2.options req.
Proof.
  unfold accepted_request, accepted_by. cbn.
  split; intros (parts & ? & ? & ? & Hall); exists parts; repeat split; try done.
  - by apply acceptable_all2.
  - eapply Forall_impl; [exact Hall|]. intros p. apply acceptable_passes2.
Qed.

Lemma post_upload1_status (req : Request) (w : World) :
  (status (Variant1.post_upload req w).1 = 200%N
   <-> accepted_request req /\ db_rejects req = None)
  /\ (status (Variant1.post_upload req w).1 = 500%N
      <-> accepted_request req /\ db_rejects req <> None)
  /\ (status (Variant1.post_upload req w).1 = 400%N <-> ~ accepted_request req).
Proof.
  rewrite post_upload1_route, accepted_request_by1.
  eapply route_status;
    eauto using callback1_failed, callback1_no_files, callback1_files.
Qed.

Lemma post_upload2_status (req : Request) (w : World) :
  (status (Variant2.post_upload req w).1 = 200%N
   <-> accepted_request req /\ db_rejects req = None)
  /\ (status (Variant2.post_upload req w).1 = 500%N
      <-> accepted_request req /\ db_rejects req <> None)
  /\ (status (Variant2.post_upload req w).1 = 400%N <-> ~ accepted_request req).
Proof.
  rewrite post_upload2_route, accepted_request_by2.
  eapply route_status;
    eauto using callback2_failed, callback2_no_files, callback2_files.
Qed.


(** A request that is not accepted, whatever the reason (no multipart
    body, no file, more than ten files, a file under another field, of an
    unlisted type or over the size limit), is answered 400 with a message
    and adds no document.  When no part of the body is handled after the
    error, the disk holds nothing it did not hold before; a part handled
    after the error may leave its file.
    Both variants. *)
Theorem turned_down_adds_no_document (req : Request) (w : World) :
  ~ accepted_request req ->
  (answered_400 w (Variant1.post_upload req w) /\
   answered_400 w (Variant2.post_upload req w)) /\
  ((forall parts, body req = Multipart parts ->
                  Forall (fun q => late q = Unseen) parts) ->
   disk (Variant1.post_upload req w).2 ⊆ disk w /\
   disk (Variant2.post_upload req w).2 ⊆ disk w).
Proof.
  intros Hnot.
  destruct (route_turned_down Variant1.options Variant1.callback
              "Keine Datei ausgewählt!" callback1_failed callback1_no_files
              req w) as (m1 & d1 & Hr1 & Hsub1).
  { by rewrite <- accepted_request_by1. }
  destruct (route_turned_down Variant2.options Variant2.callback
              "❌ Keine Datei ausgewählt!" callback2_failed callback2_no_files
              req w) as (m2 & d2 & Hr2 & Hsub2).
  { by rewrite <- accepted_request_by2. }
  rewrite !post_upload1_route, !post_upload2_route, Hr1, Hr2.
  split; [split; repeat split; cbn; eauto|].
  intros Hun. split; cbn; auto.
Qed.

Lemma turned_down_witness :
  (answered_400 empty_world
     (Variant1.post_upload (request_of (replicate 11 gif_file) None)
        empty_world) /\
   answered_400 empty_world
     (Variant2.post_upload (request_of (replicate 11 gif_file) None)
        empty_world)) /\
  disk (Variant1.post_upload (request_of (replicate 11 gif_file) None)
          empty_world).2 ⊆ disk empty_world /\
  disk (Variant2.post_upload (request_of (replicate 11 gif_file) None)
          empty_world).2 ⊆ disk empty_world.
Proof.
  assert (Hnot : ~ accepted_request (request_of (replicate 11 gif_file) None)).
  { intros (parts & [= <-] & _ & Hlen & _). cbn in Hlen. lia. }
  destruct (turned_down_adds_no_document
              (request_of (replicate 11 gif_file) None) empty_world Hnot)
    as [Hans Hdisk].
  refine (conj Hans (Hdisk _)).
  intros parts [= <-]. by repeat constructor.
Defined.

(** *** What a sequence of uploads keeps *)

Lemma serve_snoc (h : Request -> World -> Response * World)
    (reqs : list Request) (req : Request) (w : World) :
  serve h (reqs ++ [req]) w = (h req (serve h reqs w)).2.
Proof. unfold serve. by rewrite foldl_app. Qed.

(** Whatever requests are served, the collection keeps every document it
    had, in place: uploads only append.  Both variants. *)
Theorem collection_only_grows (reqs : list Request) (w : World) :
  images w `prefix_of` images (serve Variant1.post_upload reqs w) /\
  images w `prefix_of` images (serve Variant2.post_upload reqs w).
Proof.
  induction reqs as [|req reqs [IH1 IH2]] using rev_ind; [done|].
  rewrite !serve_snoc. split.
  - etrans; [exact IH1|]. rewrite post_upload1_route.
    eapply route_appends;
      eauto using callback1_failed, callback1_no_files, callback1_files.
  - etrans; [exact IH2|]. rewrite post_upload2_route.
    eapply route_appends;
      eauto using callback2_failed, callback2_no_files, callback2_files.
Qed.

(** If the path of every document is ["/uploads/"] followed by its file
    name, it stays so whatever requests are served, also when the store
    rejects a batch after committing a part of it.  Both variants. *)
Theorem path_rule_kept (reqs : list Request) (w : World) :
  path_rule (images w) ->
  path_rule (images (serve Variant1.post_upload reqs w)) /\
  path_rule (images (serve Variant2.post_upload reqs w)).
Proof.
  intros Hrule.
  induction reqs as [|req reqs [IH1 IH2]] using rev_ind; [done|].
  rewrite !serve_snoc. split.
  - rewrite post_upload1_route.
    eapply route_path_rule;
      eauto using callback1_failed, callback1_no_files, callback1_files.
  - rewrite post_upload2_route.
    eapply route_path_rule;
      eauto using callback2_failed, callback2_no_files, callback2_files.
Qed.

Lemma path_rule_kept_witness :
  path_rule (images (serve Variant1.post_upload
                       [request_of [twin_a; gif_file] (Some 1%nat);
                        request_of [oversized] None;
                        request_of [gif_file] None] empty_world)).
Proof.
  apply (path_rule_kept [request_of [twin_a; gif_file] (Some 1%nat);
                         request_of [oversized] None;
                         request_of [gif_file] None] empty_world).
  constructor.
Defined.

(** *** After a successful upload *)

(** When the upload is answered 200, every path in the answer has its blob
    on disk under the name that follows ["/uploads/"].  Both variants. *)
Theorem answered_paths_on_disk (req : Request) (w : World) :
  accepted_request req -> db_rejects req = None ->
  (exists paths,
     (Variant1.post_upload req w).1 = {| status := 200; json := FilePaths paths |} /\
     forall name, "/uploads/" +:+ name ∈ paths ->
                  is_Some (disk (Variant1.post_upload req w).2 !! name))
  /\
  (exists paths,
     (Variant2.post_upload req w).1 = {| status := 200; json := FilePaths paths |} /\
     forall name, "/uploads/" +:+ name ∈ paths ->
                  is_Some (disk (Variant2.post_upload req w).2 !! name)).
Proof.
  intros Hacc Hdb. split.
  - assert (Hst : status (Variant1.post_upload req w).1 = 200%N)
      by (by apply post_upload1_status).
    rewrite post_upload1_route in *.
    destruct (route_200_blobs Variant1.options Variant1.callback
                "Keine Datei ausgewählt!" "Fehler beim Speichern der Bilder"
                callback1_failed callback1_no_files callback1_files req w Hst)
      as (paths & Hjson & Hblobs).
    exists paths. split; [|done].
    destruct (route _ _ req w).1 as [st js]. cbn in *. by subst.
  - assert (Hst : status (Variant2.post_upload req w).1 = 200%N)
      by (by apply post_upload2_status).
    rewrite post_upload2_route in *.
    destruct (route_200_blobs Variant2.options Variant2.callback
                "❌ Keine Datei ausgewählt!" "Fehler beim Speichern in der Datenbank"
                callback2_failed callback2_no_files callback2_files req w Hst)
      as (paths & Hjson & Hblobs).
    exists paths. split; [|done].
    destruct (route _ _ req w).1 as [st js]. cbn in *. by subst.
Qed.

Lemma accepted_twins : accepted_request (request_of [twin_a; gif_file] None).
Proof.
  exists [twin_a; gif_file]. repeat split; [done|cbn; lia|].
  repeat constructor; by vm_compute.
Defined.

Lemma answered_paths_on_disk_witness :
  exists paths,
    (Variant2.post_upload (request_of [twin_a; gif_file] None) empty_world).1
    = {| status := 200; json := FilePaths paths |} /\
    forall name, "/uploads/" +:+ name ∈ paths ->
      is_Some (disk (Variant2.post_upload (request_of [twin_a; gif_file] None)
                       empty_world).2 !! name).
Proof.
  exact (proj2 (answered_paths_on_disk (request_of [twin_a; gif_file] None)
                  empty_world accepted_twins eq_refl)).
Defined.

(** A successful upload shows in the listing: whatever engine answers the
    query as asked, the listing after the upload holds the paths listed
    before it and the paths the upload answered, and no other.  Both
    variants. *)
Theorem uploaded_paths_listed (E : Image.Engine) (req req' : Request) (w : World) :
  Image.honours_sort E -> query_fails req' = false ->
  accepted_request req -> db_rejects req = None ->
  (exists before paths after,
     get_images req' w = {| status := 200; json := FilePaths before |} /\
     (Variant1.post_upload req w).1 = {| status := 200; json := FilePaths paths |} /\
     get_images req' (Variant1.post_upload req w).2
     = {| status := 200; json := FilePaths after |} /\
     after ≡ₚ before ++ paths)
  /\
  (exists before paths after,
     get_images req' w = {| status := 200; json := FilePaths before |} /\
     (Variant2.post_upload req w).1 = {| status := 200; json := FilePaths paths |} /\
     get_images req' (Variant2.post_upload req w).2
     = {| status := 200; json := FilePaths after |} /\
     after ≡ₚ before ++ paths).
Proof.
  intros Hsort Hq Hacc Hdb. split.
  - assert (Hst : status (Variant1.post_upload req w).1 = 200%N)
      by (by apply post_upload1_status).
    rewrite post_upload1_route in *.
    destruct (route_200_listed Variant1.options Variant1.callback
                "Keine Datei ausgewählt!" "Fehler beim Speichern der Bilder"
                callback1_failed callback1_no_files callback1_files
                E req req' w Hsort Hq Hst)
      as (before & paths & after & H1 & H2 & H3 & H4).
    exists before, paths, after. repeat split; try done.
    destruct (route _ _ req w).1 as [st js]. cbn in *. by subst.
  - assert (Hst : status (Variant2.post_upload req w).1 = 200%N)
      by (by apply post_upload2_status).
    rewrite post_upload2_route in *.
    destruct (route_200_listed Variant2.options Variant2.callback
                "❌ Keine Datei ausgewählt!" "Fehler beim Speichern in der Datenbank"
                callback2_failed callback2_no_files callback2_files
                E req req' w Hsort Hq Hst)
      as (before & paths & after & H1 & H2 & H3 & H4).
    exists before, paths, after. repeat split; try done.
    destruct (route _ _ req w).1 as [st js]. cbn in *. by subst.
Qed.

Lemma uploaded_paths_listed_witness :
  exists before paths after,
    get_images (E := reverse_order_engine) (request_of [] None) empty_world
    = {| status := 200; json := FilePaths before |} /\
    (Variant1.post_upload (request_of [twin_a; gif_file] None) empty_world).1
    = {| status := 200; json := FilePaths paths |} /\
    get_images (E := reverse_order_engine) (request_of [] None)
      (Variant1.post_upload (request_of [twin_a; gif_file] None) empty_world).2
    = {| status := 200; json := FilePaths after |} /\
    after ≡ₚ before ++ paths.
Proof.
  exact (proj1 (uploaded_paths_listed reverse_order_engine
                  (request_of [twin_a; gif_file] None) (request_of [] None)
                  empty_world reverse_order_engine_honours eq_refl
                  accepted_twins eq_refl)).
Defined.

(** *** The first failing file decides *)

(** The first file that fails a check decides the answer: two requests
    that agree up to and including a file that is not acceptable get the
    same response and leave the same collection, whatever follows that
    file.  When no part of either body is handled after the error, they
    leave the same disk too; parts handled after the error may leave
    different files.  Both variants. *)
Theorem first_failure_decides_answer (req1 req2 : Request) (w : World)
    (pre : list Part) (p : Part) (post1 post2 : list Part) :
  body req1 = Multipart (pre ++ p :: post1) ->
  body req2 = Multipart (pre ++ p :: post2) ->
  ~ acceptable p ->
  ((Variant1.post_upload req1 w).1 = (Variant1.post_upload req2 w).1 /\
   images (Variant1.post_upload req1 w).2
   = images (Variant1.post_upload req2 w).2) /\
  ((Variant2.post_upload req1 w).1 = (Variant2.post_upload req2 w).1 /\
   images (Variant2.post_upload req1 w).2
   = images (Variant2.post_upload req2 w).2) /\
  (Forall (fun q => late q = Unseen) (pre ++ p :: post1) ->
   Forall (fun q => late q = Unseen) (pre ++ p :: post2) ->
   Variant1.post_upload req1 w = Variant1.post_upload req2 w /\
   Variant2.post_upload req1 w = Variant2.post_upload req2 w).
Proof.
  intros H1 H2 Hp. split; [|split].
  - rewrite !post_upload1_route.
    eapply route_answer_at_failure;
      eauto using callback1_failed, callback1_no_files, callback1_files.
    by rewrite <- acceptable_passes1.
  - rewrite !post_upload2_route.
    eapply route_answer_at_failure;
      eauto using callback2_failed, callback2_no_files, callback2_files.
    by rewrite <- acceptable_passes2.
  - intros Hu1 Hu2. split.
    + rewrite post_upload1_route.
      eapply route_stops_at_failure;
        eauto using callback1_failed, callback1_no_files, callback1_files.
      by rewrite <- acceptable_passes1.
    + rewrite post_upload2_route.
      eapply route_stops_at_failure;
        eauto using callback2_failed, callback2_no_files, callback2_files.
      by rewrite <- acceptable_passes2.
Qed.

Lemma first_failure_witness :
  (Variant1.post_upload (request_of [twin_a; text_file; late_gif] None)
     empty_world).1
  = (Variant1.post_upload (request_of [twin_a; text_file] (Some 0%nat))
       empty_world).1 /\
  images (Variant1.post_upload (request_of [twin_a; text_file; late_gif] None)
            empty_world).2
  = images (Variant1.post_upload (request_of [twin_a; text_file] (Some 0%nat))
              empty_world).2.
Proof.
  refine (proj1 (first_failure_decides_answer
                   (request_of [twin_a; text_file; late_gif] None)
                   (request_of [twin_a; text_file] (Some 0%nat)) empty_world
                   [twin_a] text_file [late_gif] [] eq_refl eq_refl _)).
  intros (_ & Ht & _). by vm_compute in Ht.
Defined.

Section FilterMessage.
Variable o : Multer.Options.

(** The first file the filter turns down, after passing ones, fails the
    upload with the filter's own error. *)
Lemma process_filter_rejects (pre : list Part) (p : Part) (post : list Part)
    (d : gmap string N) (m : string) :
  Forall (passes o) pre -> (length pre < Multer.maxCount o)%nat ->
  fieldname p = Multer.field o -> Multer.fileFilter o p = Multer.Reject m ->
  (Multer.middleware o (Multipart (pre ++ p :: post)) d).1
  = Multer.Failed (Multer.FilterError m).
Proof.
  intros Hpre Hlen Hf Hv. cbn.
  rewrite process_passing_prefix by (done || lia). cbn.
  unfold Multer.files_left. rewrite Hf, String.eqb_refl.
  destruct (Nat.leb_spec (Multer.maxCount o - length pre) 0); [lia|].
  by rewrite Hv.
Qed.

End FilterMessage.

(** A file of an unlisted type, the first of its batch to fail a check, is
    answered 400 with the message of the variant's filter. *)
Theorem unlisted_type_message (req : Request) (w : World)
    (pre : list Part) (p : Part) (post : list Part) :
  body req = Multipart (pre ++ p :: post) ->
  Forall acceptable pre -> (length pre < 10)%nat ->
  fieldname p = "images" -> type_ok p = false ->
  (Variant1.post_upload req w).1
  = {| status := 400; json := Message "Nur JPG, PNG, GIF erlaubt!" |} /\
  (Variant2.post_upload req w).1
  = {| status := 400; json := Message "❌ Nur JPG, PNG, GIF erlaubt!" |}.
Proof.
  intros Hbody Hpre Hlen Hf Ht. split.
  - assert (Hv : Variant1.fileFilter p = Multer.Reject "Nur JPG, PNG, GIF erlaubt!").
    { unfold Variant1.fileFilter. unfold type_ok in Ht. by rewrite Ht. }
    assert (H := process_filter_rejects Variant1.options pre p post (disk w) _
                   (acceptable_all1 pre Hpre) Hlen Hf Hv).
    unfold Variant1.post_upload, Variant1.upload. rewrite Hbody.
    destruct (Multer.middleware _ _ _) as [out d]. cbn in H. by subst out.
  - assert (Hv : Variant2.fileFilter p
                 = Multer.Reject "❌ Nur JPG, PNG, GIF erlaubt!").
    { unfold Variant2.fileFilter. unfold type_ok in Ht.
      rewrite andb_comm in Ht. by rewrite Ht. }
    assert (H := process_filter_rejects Variant2.options pre p post (disk w) _
                   (acceptable_all2 pre Hpre) Hlen Hf Hv).
    unfold Variant2.post_upload, Variant2.upload. rewrite Hbody.
    destruct (Multer.middleware _ _ _) as [out d]. cbn in H. by subst out.
Qed.

Lemma unlisted_type_witness :
  (Variant2.post_upload (request_of [twin_a; text_file; gif_file] None) empty_world).1
  = {| status := 400; json := Message "❌ Nur JPG, PNG, GIF erlaubt!" |}.
Proof.
  refine (proj2 (unlisted_type_message
                   (request_of [twin_a; text_file; gif_file] None) empty_world
                   [twin_a] text_file [gif_file] eq_refl _ _ eq_refl eq_refl)).
  - repeat constructor; by vm_compute.
  - cbn; lia.
Defined.

(** More than ten files, all of them acceptable: the eleventh is
    unexpected; the answer is 400 with multer's message, no document is
    added and none of the ten files written stays on disk. *)
Theorem eleventh_file_rejected (req : Request) (w : World) (parts : list Part) :
  body req = Multipart parts ->
  Forall acceptable parts -> (10 < length parts)%nat ->
  ((Variant1.post_upload req w).1
   = {| status := 400; json := Message "Unexpected field" |}
   /\ rejected_400 w (Variant1.post_upload req w))
  /\
  ((Variant2.post_upload req w).1
   = {| status := 400; json := Message "Unexpected field" |}
   /\ rejected_400 w (Variant2.post_upload req w)).
Proof.
  intros Hbody Hall Hlen.
  assert (Hnot : ~ accepted_request req).
  { intros (parts' & Hb & _ & Hle & _). rewrite Hbody in Hb.
    injection Hb as <-. lia. }
  destruct (route_turned_down Variant1.options Variant1.callback
              "Keine Datei ausgewählt!" callback1_failed callback1_no_files
              req w) as (m1 & d1 & Hr1 & _).
  { by rewrite <- accepted_request_by1. }
  destruct (route_turned_down Variant2.options Variant2.callback
              "❌ Keine Datei ausgewählt!" callback2_failed callback2_no_files
              req w) as (m2 & d2 & Hr2 & _).
  { by rewrite <- accepted_request_by2. }
  assert (R1 : rejected_400 w (Variant1.post_upload req w)).
  { repeat split.
    - by rewrite post_upload1_route, Hr1.
    - rewrite post_upload1_route, Hr1. by eexists.
    - by rewrite post_upload1_route, Hr1.
    - rewrite post_upload1_disk. unfold Variant1.upload. rewrite Hbody.
      apply (process_too_many_disk Variant1.options parts (disk w));
        [by apply acceptable_all1|exact Hlen|done]. }
  assert (R2 : rejected_400 w (Variant2.post_upload req w)).
  { repeat split.
    - by rewrite post_upload2_route, Hr2.
    - rewrite post_upload2_route, Hr2. by eexists.
    - by rewrite post_upload2_route, Hr2.
    - rewrite post_upload2_disk. unfold Variant2.upload. rewrite Hbody.
      apply (process_too_many_disk Variant2.options parts (disk w));
        [by apply acceptable_all2|exact Hlen|done]. }
  split; (split; [|done]).
  - destruct (process_too_many Variant1.options parts 10 [] (disk w)
                (acceptable_all1 parts Hall) Hlen) as [x Hx].
    unfold Variant1.post_upload, Variant1.upload. rewrite Hbody.
    cbn [Multer.middleware Multer.maxCount Variant1.options].
    destruct (Multer.process _ _ _ _ _) as [out d]. cbn in Hx. by subst out.
  - destruct (process_too_many Variant2.options parts 10 [] (disk w)
                (acceptable_all2 parts Hall) Hlen) as [x Hx].
    unfold Variant2.post_upload, Variant2.upload. rewrite Hbody.
    cbn [Multer.middleware Multer.maxCount Variant2.options].
    destruct (Multer.process _ _ _ _ _) as [out d]. cbn in Hx. by subst out.
Qed.

Lemma eleventh_file_witness :
  (Variant1.post_upload (request_of (replicate 11 gif_file) None) empty_world).1
  = {| status := 400; json := Message "Unexpected field" |}.
Proof.
  refine (proj1 (proj1 (eleventh_file_rejected
                          (request_of (replicate 11 gif_file) None) empty_world
                          (replicate 11 gif_file) eq_refl _ _))).
  - repeat constructor; by vm_compute.
  - cbn; lia.
Defined.

(** ** The file filter *)

Lemma prefix_occurs (s1 s2 : string) :
  String.prefix s1 s2 = true <-> exists r, s2 = s1 +:+ r.
Proof.
  revert s2. induction s1 as [|c s1 IH]; intros s2.
  - split; [by exists s2|by destruct s2].
  - destruct s2 as [|c2 s2]; cbn; [split; [done|by intros [r ?]]|].
    destruct (Ascii.ascii_dec c c2) as [->|Hne].
    + rewrite IH. split; intros [r Hr]; exists r; [by rewrite Hr|by injection Hr].
    + split; [done|]. intros [r Hr]. by injection Hr as -> _.
Qed.

(** [includes] finds the needle exactly when it occurs. *)
Lemma includes_occurs (needle hay : string) :
  JS.includes needle hay = true <-> occurs_in needle hay.
Proof.
  unfold occurs_in. induction hay as [|c hay IH]; cbn [JS.includes].
  - rewrite orb_false_r, prefix_occurs. split.
    + intros [r Hr]. by exists "", r.
    + intros (b & a & H). destruct b; [by exists a|discriminate H].
  - rewrite orb_true_iff, prefix_occurs, IH. split.
    + intros [[r Hr]|(b & a & H)].
      * by exists "", r.
      * exists (String c b), a. cbn. by rewrite H.
    + intros (b & a & H). destruct b as [|c' b]; cbn in H.
      * left. by exists a.
      * right. injection H as _ H. by exists b, a.
Qed.

Lemma regex_test_occurs (alternatives : list string) (s : string) :
  JS.regex_test alternatives s = true
  <-> exists a, a ∈ alternatives /\ occurs_in a s.
Proof.
  unfold JS.regex_test. rewrite existsb_exists.
  split; intros (a & Hin & H); exists a.
  - split; [by apply list_elem_of_In|by apply includes_occurs].
  - split; [by apply list_elem_of_In|by apply includes_occurs].
Qed.

(** The filters of both variants accept exactly the files of which the
    lower-cased extension contains one of the words jpeg, jpg, png, gif
    and of which the content type, as declared, contains one of them. *)
Theorem filter_accepts_iff (p : Part) :
  let listed s := exists word, word ∈ ["jpeg"; "jpg"; "png"; "gif"]
                               /\ occurs_in word s in
  (Variant1.fileFilter p = Multer.Accept
   <-> listed (JS.toLowerCase (Path.extname (originalname p)))
       /\ listed (mimetype p))
  /\
  (Variant2.fileFilter p = Multer.Accept
   <-> listed (JS.toLowerCase (Path.extname (originalname p)))
       /\ listed (mimetype p)).
Proof.
  intros listed. unfold listed.
  rewrite fileFilter1_accept, fileFilter2_accept. unfold type_ok.
  by rewrite andb_true_iff, !regex_test_occurs.
Qed.

(** *** The case of the file name *)

Lemma lower_char_slash (c : ascii) :
  Ascii.eqb (JS.lower_char c) "/" = Ascii.eqb c "/".
Proof. by destruct c as [[] [] [] [] [] [] [] []]. Qed.

Lemma lower_char_dot (c : ascii) :
  Ascii.eqb (JS.lower_char c) "." = Ascii.eqb c ".".
Proof. by destruct c as [[] [] [] [] [] [] [] []]. Qed.

Lemma charAt_lower (path : string) : forall i,
  JS.charAt (JS.toLowerCase path) i = JS.lower_char (JS.charAt path i).
Proof.
  unfold JS.charAt. induction path as [|c path IH]; intros i; [done|].
  destruct i as [|i]; cbn; [done|]. apply IH.
Qed.

Lemma length_lower (s : string) :
  String.length (JS.toLowerCase s) = String.length s.
Proof. induction s as [|c s IH]; cbn; [done|]. by rewrite IH. Qed.

Lemma substring_lower (s : string) : forall a m,
  String.substring a m (JS.toLowerCase s) = JS.toLowerCase (String.substring a m s).
Proof.
  induction s as [|c s IH]; intros a m.
  - by destruct a, m.
  - destruct a as [|a]; cbn.
    + destruct m as [|m]; cbn; [done|]. by rewrite IH.
    + apply IH.
Qed.

(** The loop of [path.extname] takes the same steps on a name and on its
    lower-cased form. *)
Lemma extname_loop_lower (path : string) (n : nat) : forall st,
  Path.extname_loop (JS.toLowerCase path) n st = Path.extname_loop path n st.
Proof.
  induction n as [|i IH]; intros st; [done|].
  cbn [Path.extname_loop].
  rewrite charAt_lower, lower_char_slash, lower_char_dot.
  destruct (Ascii.eqb (JS.charAt path i) "/").
  - destruct (negb (Path.matchedSlash st)); [done|apply IH].
  - apply IH.
Qed.

Lemma extname_lower (path : string) :
  Path.extname (JS.toLowerCase path) = JS.toLowerCase (Path.extname path).
Proof.
  unfold Path.extname. rewrite length_lower, extname_loop_lower.
  destruct (_ || _); [done|]. unfold JS.slice. apply substring_lower.
Qed.

(** The filters look at the file name only up to the case of its letters:
    two files whose names differ in case only, declared with the same
    content type, get the same verdict.  Both variants. *)
Theorem filter_ignores_case (p q : Part) :
  JS.toLowerCase (originalname p) = JS.toLowerCase (originalname q) ->
  mimetype p = mimetype q ->
  Variant1.fileFilter p = Variant1.fileFilter q /\
  Variant2.fileFilter p = Variant2.fileFilter q.
Proof.
  intros Hname Hmime.
  assert (Hext : JS.toLowerCase (Path.extname (originalname p))
                 = JS.toLowerCase (Path.extname (originalname q))).
  { by rewrite <- !extname_lower, Hname. }
  unfold Variant1.fileFilter, Variant2.fileFilter.
  by rewrite Hext, Hmime.
Qed.

Lemma filter_ignores_case_witness :
  Variant1.fileFilter
    {| fieldname := "images"; originalname := "Ferien.JPeG";
       mimetype := "image/jpeg"; size := 1; named_at := 1; late := Unseen |}
  = Variant1.fileFilter
      {| fieldname := "images"; originalname := "FERIEN.jpeg";
         mimetype := "image/jpeg"; size := 2; named_at := 2; late := Unseen |}.
Proof.
  exact (proj1 (filter_ignores_case
                  {| fieldname := "images"; originalname := "Ferien.JPeG";
                     mimetype := "image/jpeg"; size := 1; named_at := 1; late := Unseen |}
                  {| fieldname := "images"; originalname := "FERIEN.jpeg";
                     mimetype := "image/jpeg"; size := 2; named_at := 2; late := Unseen |}
                  eq_refl eq_refl)).
Defined.

(** ** Storage names stay inside the upload directory *)

Section ExtnameSlashless.
Variable path : string.

(** While the loop runs: a set slash flag means no end is marked yet; the
    characters from the next index to visit up to the end mark are no
    slashes; a marked dot lies among them. *)
Lemma extname_loop_slashless (n : nat) : forall st,
  (Path.matchedSlash st = true -> Path.endIdx st = -1) ->
  (Path.endIdx st <> -1 ->
   forall j, (n <= j)%nat -> Z.of_nat j < Path.endIdx st ->
             JS.charAt path j <> "/"%char) ->
  (Path.startDot st <> -1 -> Z.of_nat n <= Path.startDot st) ->
  let st' := Path.extname_loop path n st in
  Path.startDot st' <> -1 ->
  forall j, Path.startDot st' <= Z.of_nat j < Path.endIdx st' ->
            JS.charAt path j <> "/"%char.
Proof.
  induction n as [|i IH]; intros st Hflag Hrange Hdot.
  { cbn. intros Hsd j [Hj1 Hj2]. apply Hrange; [|lia|done].
    intros He. rewrite He in Hj2. specialize (Hdot Hsd). lia. }
  destruct st as [sd sp e ms pd]. cbn in Hflag, Hrange, Hdot.
  cbn [Path.extname_loop Path.startDot Path.startPart Path.endIdx
       Path.matchedSlash Path.preDotState].
  destruct (Ascii.eqb (JS.charAt path i) "/") eqn:Hc.
  { destruct ms; cbn [negb].
    - apply IH; cbn; [done|intros He; by specialize (Hflag eq_refl)|].
      intros Hsd. specialize (Hflag eq_refl). specialize (Hdot Hsd). lia.
    - cbn. intros Hsd j [Hj1 Hj2]. specialize (Hdot Hsd).
      apply Hrange; [|lia|done]. intros He. lia. }
  assert (Hi : JS.charAt path i <> "/"%char).
  { intros Heq. rewrite Heq in Hc. discriminate Hc. }
  assert (Hstep : forall e', (e = -1 -> e' = Z.of_nat i + 1) -> (e <> -1 -> e' = e) ->
            forall j, (i <= j)%nat -> Z.of_nat j < e' -> JS.charAt path j <> "/"%char).
  { intros e' H1 H2 j Hj1 Hj2.
    destruct (decide (j = i)) as [->|Hne]; [done|].
    destruct (decide (e = -1)) as [He|He]; [rewrite (H1 He) in Hj2; lia|].
    rewrite (H2 He) in Hj2. apply Hrange; [done|lia|done]. }
  destruct (Ascii.eqb (JS.charAt path i) ".");
    destruct (Z.eqb_spec e (-1)) as [He|He]; cbn;
    destruct (Z.eqb_spec sd (-1)) as [Hs|Hs]; cbn;
    try destruct (negb (pd =? 1)); apply IH; cbn;
    try done; try (intros; lia);
    try (intros _; apply Hstep; intros; lia);
    try (intros ?; specialize (Hdot Hs); lia).
Qed.

End ExtnameSlashless.

Lemma substring_slashless (s : string) : forall a m,
  (forall j, (a <= j < a + m)%nat -> JS.charAt s j <> "/"%char) ->
  slashless (String.substring a m s).
Proof.
  induction s as [|c s IH]; intros a m Hrange.
  - by destruct a, m.
  - destruct a as [|a]; cbn.
    + destruct m as [|m]; cbn; [done|]. split.
      * apply (Hrange 0%nat). lia.
      * apply IH. intros j Hj. apply (Hrange (S j)). lia.
    + apply IH. intros j Hj. apply (Hrange (S j)). lia.
Qed.

(** [path.extname] never returns a slash. *)
Lemma extname_slashless (path : string) : slashless (Path.extname path).
Proof.
  unfold Path.extname.
  set (st := Path.extname_loop path (String.length path) Path.ext_init).
  assert (Hmark : dot_marked path st).
  { apply extname_loop_dot_marked; [by left|]. intros H. by cbn in H. }
  assert (Hno := extname_loop_slashless path (String.length path) Path.ext_init).
  cbn zeta in Hno. fold st in Hno.
  destruct (Z.eqb_spec (Path.startDot st) (-1)) as [Hs|Hs]; [done|].
  destruct (_ || _); [done|].
  destruct (Hmark Hs) as [Hlt _].
  unfold JS.slice. apply substring_slashless. intros j Hj.
  apply Hno; cbn; try done; lia.
Qed.

Lemma string_of_uint_slashless (d : Decimal.uint) :
  slashless (NilEmpty.string_of_uint d).
Proof. induction d; cbn; try split; try done. Qed.

Lemma slashless_app (s t : string) : slashless s -> slashless t -> slashless (s +:+ t).
Proof.
  induction s as [|c s IH]; cbn; [done|]. intros [? ?] ?. split; auto.
Qed.

(** Whatever the client calls its file, the storage name holds no slash:
    it is a plain file name, and the blob lands in the upload directory
    itself.  Both variants. *)
Theorem storage_name_has_no_slash (p : Part) :
  slashless (Variant1.storage_filename p) /\
  slashless (Variant2.storage_filename p).
Proof.
  split; apply slashless_app;
    first [apply string_of_uint_slashless|apply extname_slashless].
Qed.

(** ** The two variants name files alike *)

Lemma charAt_app_r (s t : string) (j : nat) :
  JS.charAt (s +:+ t) (String.length s + j) = JS.charAt t j.
Proof.
  unfold JS.charAt. by rewrite (append_correct2 s t j), (Nat.add_comm j).
Qed.

Lemma charAt_app_l (s t : string) (j : nat) :
  (j < String.length s)%nat -> JS.charAt (s +:+ t) j = JS.charAt s j.
Proof.
  intros Hj. unfold JS.charAt. by rewrite <- (append_correct1 s t j Hj).
Qed.

Lemma slashless_charAt (s : string) : forall k,
  slashless s -> (k < String.length s)%nat ->
  Ascii.eqb (JS.charAt s k) "/" = false.
Proof.
  induction s as [|c s IH]; intros k Hs Hk; cbn in Hk; [lia|].
  destruct Hs as [Hc Hs]. destruct k as [|k].
  - unfold JS.charAt. cbn. by apply Ascii.eqb_neq.
  - apply (IH k Hs). lia.
Qed.

Lemma all_slashes_charAt (s : string) : forall k,
  all_slashes s -> (k < String.length s)%nat ->
  Ascii.eqb (JS.charAt s k) "/" = true.
Proof.
  induction s as [|c s IH]; intros k Hs Hk; cbn in Hk; [lia|].
  destruct Hs as [-> Hs]. destruct k as [|k]; [done|].
  apply (IH k Hs). lia.
Qed.

Lemma length_append (s t : string) :
  String.length (s +:+ t) = (String.length s + String.length t)%nat.
Proof.
  induction s as [|c s IH]; [done|].
  change (String c s +:+ t) with (String c (s +:+ t)). cbn. by f_equal.
Qed.

(** Every path is a run of slashes, or ends in a component without slash
    that is followed by slashes only and preceded by nothing or by a
    slash. *)
Lemma last_component (path : string) :
  all_slashes path \/
  exists pre comp sl,
    path = pre +:+ comp +:+ sl /\ all_slashes sl /\ slashless comp /\
    comp <> "" /\ (pre = "" \/ exists pre', pre = pre' +:+ "/").
Proof.
  induction path as [|c path [IH|(pre & comp & sl & -> & Hsl & Hcomp & Hne & Hpre)]].
  - by left.
  - destruct (Ascii.ascii_dec c "/") as [->|Hc]; [by left; split|].
    right. exists "", (String c ""), path. repeat split; try done. by left.
  - right. destruct Hpre as [->|(pre' & ->)].
    + destruct (Ascii.ascii_dec c "/") as [->|Hc].
      * exists "/", comp, sl. repeat split; try done. right. by exists "".
      * exists "", (String c comp), sl. repeat split; try done. by left.
    + exists (String c (pre' +:+ "/")), comp, sl. repeat split; try done.
      right. by exists (String c pre').
Qed.

Section ExtnameSteps.
Variable path : string.

Lemma extname_loop_nonslash (i : nat) (st : Path.ExtState) :
  Ascii.eqb (JS.charAt path i) "/" = false ->
  Path.extname_loop path (S i) st
  = Path.extname_loop path i (ext_step i (JS.charAt path i) st).
Proof. intros H. cbn [Path.extname_loop]. by rewrite H. Qed.

Lemma extname_loop_continue (i : nat) (st : Path.ExtState) :
  Ascii.eqb (JS.charAt path i) "/" = true -> Path.matchedSlash st = true ->
  Path.extname_loop path (S i) st = Path.extname_loop path i st.
Proof. intros H Hms. cbn [Path.extname_loop]. by rewrite H, Hms. Qed.

Lemma extname_loop_break (i : nat) (st : Path.ExtState) :
  Ascii.eqb (JS.charAt path i) "/" = true -> Path.matchedSlash st = false ->
  Path.extname_loop path (S i) st
  = {| Path.startDot := Path.startDot st; Path.startPart := Z.of_nat i + 1;
       Path.endIdx := Path.endIdx st; Path.matchedSlash := Path.matchedSlash st;
       Path.preDotState := Path.preDotState st |}.
Proof. intros H Hms. cbn [Path.extname_loop]. by rewrite H, Hms. Qed.

(** [path.basename] and [path.extname] mark the same component: their
    loops agree on its end and on its start. *)
Lemma loops_agree (n : nat) : forall stA stB,
  Path.endIdx stA = Path.b_end stB ->
  Path.matchedSlash stA = Path.b_matchedSlash stB ->
  Path.startPart stA = Path.b_start stB ->
  Path.endIdx (Path.extname_loop path n stA)
  = Path.b_end (Path.basename_loop path n stB)
  /\ Path.startPart (Path.extname_loop path n stA)
     = Path.b_start (Path.basename_loop path n stB).
Proof.
  induction n as [|i IH]; intros stA stB He Hms Hsp; [done|].
  destruct stA as [sd sp e ms pd], stB as [bs be bms]. cbn in He, Hms, Hsp.
  subst be bms bs.
  cbn [Path.extname_loop Path.basename_loop Path.startDot Path.startPart
       Path.endIdx Path.matchedSlash Path.preDotState Path.b_start Path.b_end
       Path.b_matchedSlash].
  destruct (Ascii.eqb (JS.charAt path i) "/").
  { destruct (negb ms); [done|]. by apply IH. }
  destruct (Ascii.eqb (JS.charAt path i) ".");
    destruct (Z.eqb_spec e (-1)); cbn;
    destruct (Z.eqb_spec sd (-1)); cbn;
    try destruct (negb (pd =? 1)); by apply IH.
Qed.

End ExtnameSteps.

Lemma ext_step_flag (i : nat) (c : ascii) (st : Path.ExtState) :
  (Path.matchedSlash st = true -> Path.endIdx st = -1) ->
  Path.matchedSlash (ext_step i c st) = false.
Proof.
  intros Hflag. destruct st as [sd sp e ms pd]. cbn in Hflag.
  unfold ext_step. cbn.
  destruct (Z.eqb_spec e (-1)) as [He|He]; cbn.
  - destruct (Ascii.eqb c "."); destruct (sd =? -1); cbn;
      try destruct (negb (pd =? 1)); done.
  - assert (ms = false) as -> by (destruct ms; [by specialize (Hflag eq_refl)|done]).
    destruct (Ascii.eqb c "."); destruct (sd =? -1); cbn;
      try destruct (negb (pd =? 1)); done.
Qed.

Lemma shifted_step (lp k : nat) (c : ascii) (a b : Path.ExtState) :
  shifted lp a b -> shifted lp (ext_step (lp + k) c a) (ext_step k c b).
Proof.
  destruct a as [sd sp e ms pd], b as [sd' sp' e' ms' pd'].
  unfold shifted, ext_step. cbn.
  intros (Hsd & He & Hms & Hpd & Hsp & Hsp' & Hlo & Hle & Hflag). subst.
  destruct (Ascii.eqb c ".");
    destruct (Z.eqb_spec e (-1)) as [He|He]; cbn;
    destruct (Z.eqb_spec sd (-1)) as [Hs|Hs]; cbn;
    rewrite ?Z.eqb_refl; cbn;
    repeat match goal with
           | |- context [Z.eqb ?x ?y] => destruct (Z.eqb_spec x y); cbn
           end;
    repeat split; cbn in *; try done; try lia; try (intros; lia).
Qed.

Lemma extname_loop_end_kept (s : string) (n : nat) : forall st,
  Path.endIdx st <> -1 ->
  Path.endIdx (Path.extname_loop s n st) = Path.endIdx st.
Proof.
  induction n as [|i IH]; intros st He; [done|].
  destruct st as [sd sp e ms pd]. cbn in He.
  cbn [Path.extname_loop Path.startDot Path.startPart Path.endIdx
       Path.matchedSlash Path.preDotState].
  destruct (Ascii.eqb (JS.charAt s i) "/").
  { destruct (negb ms); [done|]. by apply IH. }
  destruct (Z.eqb_spec e (-1)); [done|]. cbn.
  destruct (Ascii.eqb (JS.charAt s i) "."); destruct (sd =? -1); cbn;
    try destruct (negb (pd =? 1)); by rewrite IH; cbn.
Qed.

Lemma extname_loop_end_bound (s : string) (n : nat) : forall st N,
  (n <= N)%nat -> Path.endIdx st <= Z.of_nat N ->
  Path.endIdx (Path.extname_loop s n st) <= Z.of_nat N.
Proof.
  induction n as [|i IH]; intros st N Hn He; [done|].
  destruct st as [sd sp e ms pd]. cbn in He.
  cbn [Path.extname_loop Path.startDot Path.startPart Path.endIdx
       Path.matchedSlash Path.preDotState].
  destruct (Ascii.eqb (JS.charAt s i) "/").
  { destruct (negb ms); [done|]. apply IH; [lia|done]. }
  destruct (Ascii.eqb (JS.charAt s i) "."); destruct (Z.eqb_spec e (-1)); cbn;
    destruct (sd =? -1); cbn; try destruct (negb (pd =? 1));
    apply IH; cbn; lia.
Qed.

Lemma substring_app_skip (pre s : string) (a m : nat) :
  String.substring (String.length pre + a) m (pre +:+ s) = String.substring a m s.
Proof. induction pre as [|c pre IH]; [done|]. exact IH. Qed.

Lemma substring_app_within (s t : string) : forall a m,
  (a + m <= String.length s)%nat ->
  String.substring a m (s +:+ t) = String.substring a m s.
Proof.
  induction s as [|c s IH]; intros a m Hlen; cbn in Hlen.
  - assert (a = 0%nat) as -> by lia. assert (m = 0%nat) as -> by lia.
    by destruct t.
  - change (String c s +:+ t) with (String c (s +:+ t)).
    destruct a as [|a]; cbn.
    + destruct m as [|m]; [done|]. cbn. f_equal. apply IH. lia.
    + apply IH. lia.
Qed.

Lemma substring_whole (s : string) : String.substring 0 (String.length s) s = s.
Proof. induction s as [|c s IH]; cbn; [done|]. by rewrite IH. Qed.

Section LastComponent.
Variables pre comp sl : string.
Hypothesis Hsl : all_slashes sl.
Hypothesis Hcomp : slashless comp.
Hypothesis Hne : comp <> "".
Hypothesis Hpre : pre = "" \/ exists pre', pre = pre' +:+ "/".

Lemma component_char (k : nat) :
  (k < String.length comp)%nat ->
  JS.charAt (pre +:+ comp +:+ sl) (String.length pre + k) = JS.charAt comp k.
Proof. intros Hk. by rewrite charAt_app_r, charAt_app_l. Qed.

(** The slashes after the last component are passed over. *)
Lemma trailing_slashes_skipped (k : nat) :
  (k <= String.length sl)%nat ->
  Path.extname_loop (pre +:+ comp +:+ sl)
    (String.length pre + String.length comp + k) Path.ext_init
  = Path.extname_loop (pre +:+ comp +:+ sl)
      (String.length pre + String.length comp) Path.ext_init.
Proof.
  induction k as [|k IH]; intros Hk; [by rewrite Nat.add_0_r|].
  rewrite Nat.add_succ_r, extname_loop_continue; [apply IH; lia| |done].
  rewrite <- Nat.add_assoc, !charAt_app_r. apply all_slashes_charAt; [done|lia].
Qed.

(** On the component the loop takes the steps it takes on the component
    alone, its marks moved by the length of what precedes. *)
Lemma component_sim (k : nat) : forall a b,
  (k <= String.length comp)%nat -> shifted (String.length pre) a b ->
  exists a',
    Path.extname_loop (pre +:+ comp +:+ sl) (String.length pre + k) a
    = Path.extname_loop (pre +:+ comp +:+ sl) (String.length pre) a'
    /\ shifted (String.length pre) a' (Path.extname_loop comp k b)
    /\ (Path.matchedSlash a = false \/ (0 < k)%nat -> Path.matchedSlash a' = false).
Proof.
  induction k as [|k IH]; intros a b Hk Hab.
  { exists a. rewrite Nat.add_0_r. split; [done|]. split; [exact Hab|].
    intros [?|?]; [done|lia]. }
  assert (Hc : Ascii.eqb (JS.charAt comp k) "/" = false)
    by (apply slashless_charAt; [done|lia]).
  rewrite Nat.add_succ_r, !extname_loop_nonslash;
    [|done|by rewrite component_char by lia].
  rewrite component_char by lia.
  destruct (IH (ext_step (String.length pre + k) (JS.charAt comp k) a)
               (ext_step k (JS.charAt comp k) b)) as (a' & Hrun & Hsh & Hms);
    [lia|by apply shifted_step|].
  exists a'. split; [done|]. split; [done|]. intros _. apply Hms. left.
  apply ext_step_flag. by destruct Hab as (_ & _ & _ & _ & _ & _ & _ & _ & ?).
Qed.

(** Before the component the loop stops, at a slash or at the start. *)
Lemma component_start (st : Path.ExtState) :
  Path.matchedSlash st = false -> Path.startPart st = 0 ->
  Path.extname_loop (pre +:+ comp +:+ sl) (String.length pre) st
  = {| Path.startDot := Path.startDot st;
       Path.startPart := Z.of_nat (String.length pre);
       Path.endIdx := Path.endIdx st; Path.matchedSlash := Path.matchedSlash st;
       Path.preDotState := Path.preDotState st |}.
Proof.
  intros Hms Hsp. destruct Hpre as [->|(pre' & ->)].
  - destruct st. cbn in *. by subst.
  - rewrite length_append. cbn [String.length]. rewrite Nat.add_1_r.
    rewrite extname_loop_break; [by rewrite Nat2Z.inj_succ, Z.add_1_r| |done].
    rewrite charAt_app_l by (rewrite length_append; cbn; lia).
    by rewrite <- (Nat.add_0_r (String.length pre')), charAt_app_r.
Qed.

(** The loop of [path.extname] on the whole path ends with the marks it
    ends with on the last component, moved. *)
Lemma extname_loop_on_component :
  exists a',
    Path.extname_loop (pre +:+ comp +:+ sl)
      (String.length (pre +:+ comp +:+ sl)) Path.ext_init
    = {| Path.startDot := Path.startDot a';
         Path.startPart := Z.of_nat (String.length pre);
         Path.endIdx := Path.endIdx a'; Path.matchedSlash := Path.matchedSlash a';
         Path.preDotState := Path.preDotState a' |}
    /\ shifted (String.length pre) a'
         (Path.extname_loop comp (String.length comp) Path.ext_init).
Proof.
  rewrite !length_append, Nat.add_assoc, trailing_slashes_skipped by done.
  destruct (component_sim (String.length comp) Path.ext_init Path.ext_init)
    as (a' & Hrun & Hsh & Hms); [done|by repeat split; cbn; auto|].
  exists a'. split; [|done]. rewrite Hrun. apply component_start.
  - apply Hms. right. destruct comp; [done|cbn; lia].
  - by destruct Hsh as (_ & _ & _ & _ & ? & _).
Qed.

Lemma component_end :
  Path.endIdx (Path.extname_loop comp (String.length comp) Path.ext_init)
  = Z.of_nat (String.length comp).
Proof.
  destruct comp as [|c0 rest] eqn:Heq; [done|]. rewrite <- Heq in *.
  assert (Hlen : String.length comp = S (String.length rest)) by (by rewrite Heq).
  rewrite Hlen, extname_loop_nonslash
    by (apply slashless_charAt; [done|lia]).
  assert (Hstep : Path.endIdx (ext_step (String.length rest)
                                  (JS.charAt comp (String.length rest)) Path.ext_init)
                  = Z.of_nat (String.length rest) + 1).
  { unfold ext_step. cbn. by destruct (Ascii.eqb _ "."). }
  rewrite extname_loop_end_kept; rewrite Hstep; lia.
Qed.

Lemma extname_of_component :
  Path.extname (pre +:+ comp +:+ sl) = Path.extname comp.
Proof.
  unfold Path.extname.
  destruct extname_loop_on_component as (a' & -> & Hsh).
  assert (Hmark := extname_loop_dot_marked comp (String.length comp) Path.ext_init).
  assert (Hbound := extname_loop_end_bound comp (String.length comp)
                      Path.ext_init (String.length comp)).
  destruct (Path.extname_loop comp (String.length comp) Path.ext_init)
    as [sd' sp' e' ms' pd'].
  destruct a' as [sd sp e ms pd]. unfold shifted in Hsh. cbn in *.
  destruct Hsh as (Hsd & He & _ & -> & _ & -> & Hlo & Hle & _).
  specialize (Hbound (le_n _)). unfold dot_marked, end_ahead in Hmark. cbn in Hmark.
  destruct (Z.eqb_spec sd (-1)) as [Hs|Hs]; [by subst sd'|].
  destruct (Z.eqb_spec e (-1)) as [Hee|Hee].
  { subst e'. destruct (sd' =? -1); by rewrite ?orb_true_r. }
  destruct (Z.eqb_spec sd' (-1)) as [?|Hs']; [lia|].
  destruct (Z.eqb_spec e' (-1)) as [?|He']; [lia|]. cbn.
  replace (sd' =? e' - 1) with (sd =? e - 1)
    by (destruct (Z.eqb_spec sd (e - 1)), (Z.eqb_spec sd' (e' - 1)); lia).
  replace (sd' =? 0 + 1) with (sd =? Z.of_nat (String.length pre) + 1)
    by (destruct (Z.eqb_spec sd (Z.of_nat (String.length pre) + 1)),
          (Z.eqb_spec sd' (0 + 1)); lia).
  destruct (_ || _); [done|].
  destruct Hmark as [Hlt _]; [by left|done|done|].
  unfold JS.slice.
  replace (Z.to_nat sd) with (String.length pre + Z.to_nat sd')%nat by lia.
  replace (e - sd) with (e' - sd') by lia.
  rewrite substring_app_skip. apply substring_app_within. lia.
Qed.

Lemma basename_of_component : Path.basename (pre +:+ comp +:+ sl) = comp.
Proof.
  unfold Path.basename.
  destruct (loops_agree (pre +:+ comp +:+ sl)
              (String.length (pre +:+ comp +:+ sl)) Path.ext_init
              {| Path.b_start := 0; Path.b_end := -1; Path.b_matchedSlash := true |})
    as [He Hsp]; [done..|].
  rewrite <- He, <- Hsp.
  destruct extname_loop_on_component as (a' & -> & Hsh). cbn.
  destruct Hsh as (_ & He' & _ & _ & _ & _ & _ & Hle & _).
  rewrite component_end in He'.
  destruct (Z.eqb_spec (Path.endIdx a') (-1)) as [Hee|Hee]; [lia|].
  unfold JS.slice.
  replace (Z.to_nat (Z.of_nat (String.length pre)))
    with (String.length pre + 0)%nat by lia.
  replace (Z.to_nat _) with (String.length comp) by lia.
  rewrite substring_app_skip, substring_app_within by lia.
  apply substring_whole.
Qed.

End LastComponent.

Lemma extname_loop_all_slashes (path : string) (n : nat) :
  all_slashes path -> (n <= String.length path)%nat ->
  Path.extname_loop path n Path.ext_init = Path.ext_init.
Proof.
  intros Hall. induction n as [|n IH]; intros Hn; [done|].
  rewrite extname_loop_continue; [apply IH; lia| |done].
  apply all_slashes_charAt; [done|lia].
Qed.

(** [path.basename] changes nothing to what [path.extname] returns. *)
Lemma extname_basename (path : string) :
  Path.extname (Path.basename path) = Path.extname path.
Proof.
  destruct (last_component path)
    as [Hall|(pre & comp & sl & -> & Hsl & Hcomp & Hne & Hpre)].
  - unfold Path.basename.
    destruct (loops_agree path (String.length path) Path.ext_init
                {| Path.b_start := 0; Path.b_end := -1; Path.b_matchedSlash := true |})
      as [He _]; [done..|].
    rewrite <- He. unfold Path.extname at 2.
    rewrite extname_loop_all_slashes by done. done.
  - by rewrite basename_of_component, extname_of_component.
Qed.

Lemma storage_filename_alike (p : Part) :
  Variant1.storage_filename p = Variant2.storage_filename p.
Proof.
  unfold Variant1.storage_filename, Variant2.storage_filename.
  by rewrite extname_basename.
Qed.

(** The two variants give a file the same storage name: taking the base
    name first, as the first variant does, changes nothing. *)
Theorem variants_name_alike (p : Part) :
  Variant1.storage_filename p = Variant2.storage_filename p.
Proof. apply storage_filename_alike. Qed.

(** ** The two variants answer alike *)

(** A part handled after an error is treated alike: the filters differ in
    their message only, which plays no part any more. *)
Lemma handle_late_agree (p : Part) (left : nat) (up : list File)
    (d : gmap string N) :
  Multer.handle_late Variant1.options p left up d
  = Multer.handle_late Variant2.options p left up d.
Proof.
  unfold Multer.handle_late.
  cbn [Multer.storage_filename Multer.fileFilter Multer.fileSize
       Variant1.options Variant2.options].
  replace (Multer.files_left Variant2.options left (fieldname p))
    with (Multer.files_left Variant1.options left (fieldname p)) by done.
  destruct (_ <=? _)%nat; [done|].
  rewrite (storage_filename_alike p).
  destruct (Variant1.fileFilter p) eqn:H1, (Variant2.fileFilter p) eqn:H2;
    try done.
  - apply fileFilter1_accept, fileFilter2_accept in H1. congruence.
  - apply fileFilter2_accept, fileFilter1_accept in H2. congruence.
Qed.

Lemma write_orphans_agree (parts : list Part) : forall left d,
  Multer.write_orphans Variant1.options parts left d
  = Multer.write_orphans Variant2.options parts left d.
Proof.
  induction parts as [|p rest IH]; intros left d; cbn; [done|].
  destruct (late p); try done. rewrite handle_late_agree.
  destruct (Multer.handle_late Variant2.options p left [] d) as [[l u] d'].
  apply IH.
Qed.

Lemma abort_agree (parts : list Part) : forall left up d,
  Multer.abort Variant1.options parts left up d
  = Multer.abort Variant2.options parts left up d.
Proof.
  induction parts as [|p rest IH]; intros left up d; [done|].
  cbn [Multer.abort]. destruct (late p); [done| |].
  - rewrite handle_late_agree.
    destruct (Multer.handle_late Variant2.options p left up d) as [[l u] d'].
    apply IH.
  - apply (write_orphans_agree (p :: rest)).
Qed.

(** Two outcomes of the same kind: both errors, or the same files. *)
Lemma process_agree (parts : list Part) : forall left up d,
  (Multer.process Variant1.options parts left up d).2
  = (Multer.process Variant2.options parts left up d).2
  /\ match (Multer.process Variant1.options parts left up d).1,
           (Multer.process Variant2.options parts left up d).1 with
     | Multer.Failed e1, Multer.Failed e2 =>
       Multer.message e1 = Multer.message e2
       \/ exists m1 m2, e1 = Multer.FilterError m1 /\ e2 = Multer.FilterError m2
     | Multer.Next files1, Multer.Next files2 => files1 = files2
     | _, _ => False
     end.
Proof.
  induction parts as [|p rest IH]; intros left up d; [done|].
  cbn [Multer.process Multer.storage_filename Multer.fileFilter Multer.fileSize
       Variant1.options Variant2.options].
  replace (Multer.files_left Variant2.options left (fieldname p))
    with (Multer.files_left Variant1.options left (fieldname p)) by done.
  destruct (_ <=? _)%nat; [cbn; rewrite abort_agree; by auto|].
  rewrite (storage_filename_alike p).
  destruct (Variant1.fileFilter p) eqn:H1, (Variant2.fileFilter p) eqn:H2.
  - destruct (_ <? _)%N; [cbn; rewrite abort_agree; by auto|]. apply IH.
  - apply fileFilter1_accept, fileFilter2_accept in H1. congruence.
  - apply fileFilter2_accept, fileFilter1_accept in H2. congruence.
  - cbn. rewrite abort_agree. split; [done|]. right. by eexists _, _.
Qed.

(** The two variants leave the same world behind and answer with the same
    status on every request; when that status is 200 the whole answer is
    the same. *)
Theorem variants_agree (req : Request) (w : World) :
  (Variant1.post_upload req w).2 = (Variant2.post_upload req w).2 /\
  status (Variant1.post_upload req w).1 = status (Variant2.post_upload req w).1 /\
  (status (Variant1.post_upload req w).1 = 200%N ->
   (Variant1.post_upload req w).1 = (Variant2.post_upload req w).1).
Proof.
  unfold Variant1.post_upload, Variant2.post_upload,
    Variant1.upload, Variant2.upload.
  destruct (body req) as [|parts]; [by cbn|].
  cbn [Multer.middleware Multer.maxCount Variant1.options Variant2.options].
  destruct (process_agree parts 10 [] (disk w)) as [Hd Hout].
  destruct (Multer.process Variant1.options parts 10 [] (disk w)) as [o1 d1].
  destruct (Multer.process Variant2.options parts 10 [] (disk w)) as [o2 d2].
  cbn in Hd, Hout. subst d2.
  destruct o1 as [e1|files1], o2 as [e2|files2]; try done.
  subst files2. destruct (no_files files1) eqn:Hno.
  - by rewrite callback1_no_files, callback2_no_files.
  - destruct files1 as [files|]; [|done].
    rewrite callback1_files, callback2_files by (by destruct files).
    by destruct (db_rejects req).
Qed.

(** ** What an upload leaves alone *)

Section Frame.
Variable o : Multer.Options.

Lemma remove_uploaded_other (up : list File) (d : gmap string N) (name : string) :
  name ∉ map filename up ->
  Multer.remove_uploaded up d !! name = d !! name.
Proof.
  induction up as [|f up IH]; cbn; [done|]. intros Hnot.
  apply not_elem_of_cons in Hnot as [Hne Hnot].
  rewrite lookup_delete_ne by done. by apply IH.
Qed.

Lemma handle_late_frame (p : Part) (name : string) (left : nat)
    (up : list File) (d : gmap string N) :
  name ∉ map filename up -> name <> Multer.storage_filename o p ->
  (name ∉ map filename (snd (fst (Multer.handle_late o p left up d)))) /\
  (Multer.handle_late o p left up d).2 !! name = d !! name.
Proof.
  intros Hup Hne.
  destruct (handle_late_cases o p left up d) as [->|[->|[n ->]]]; [done..|].
  cbn. split; [|by rewrite lookup_insert_ne].
  rewrite map_app. cbn. intros Hin.
  apply elem_of_app in Hin as [Hin|Hin]; [done|].
  by apply list_elem_of_singleton in Hin.
Qed.

Lemma write_orphans_frame (parts : list Part) (name : string) : forall left d,
  name ∉ map (Multer.storage_filename o) parts ->
  Multer.write_orphans o parts left d !! name = d !! name.
Proof.
  induction parts as [|p rest IH]; intros left d Hparts; [done|].
  cbn in Hparts. apply not_elem_of_cons in Hparts as [Hne Hparts].
  cbn [Multer.write_orphans]. destruct (late p); try done.
  destruct (handle_late_frame p name left [] d) as [_ Hd];
    [apply not_elem_of_nil|done|].
  destruct (Multer.handle_late o p left [] d) as [[l u] d'].
  cbn in Hd. by rewrite IH.
Qed.

Lemma abort_frame (parts : list Part) (name : string) : forall left up d,
  name ∉ map filename up ->
  name ∉ map (Multer.storage_filename o) parts ->
  Multer.abort o parts left up d !! name = d !! name.
Proof.
  induction parts as [|p rest IH]; intros left up d Hup Hparts;
    [by apply remove_uploaded_other|].
  assert (Hall := Hparts).
  cbn in Hparts. apply not_elem_of_cons in Hparts as [Hne Hparts].
  cbn [Multer.abort]. destruct (late p).
  - by apply remove_uploaded_other.
  - destruct (handle_late_frame p name left up d) as [Hu Hd]; [done..|].
    destruct (Multer.handle_late o p left up d) as [[l u] d'].
    cbn in Hu, Hd. by rewrite IH.
  - rewrite write_orphans_frame by done. by apply remove_uploaded_other.
Qed.

(** The pipeline reads and writes no blob but those named after a part of
    the body or uploaded before. *)
Lemma process_frame (parts : list Part) (name : string) : forall left up d,
  name ∉ map filename up ->
  name ∉ map (Multer.storage_filename o) parts ->
  (Multer.process o parts left up d).2 !! name = d !! name.
Proof.
  induction parts as [|p rest IH]; intros left up d Hup Hparts; [done|].
  cbn in Hparts. apply not_elem_of_cons in Hparts as [Hne Hparts].
  cbn [Multer.process].
  destruct (_ <=? _)%nat; [by apply abort_frame|].
  destruct (Multer.fileFilter o p); [|by apply abort_frame].
  assert (Hup' : forall v, name ∉ map filename
            (up ++ [{| part := p; filename := Multer.storage_filename o p;
                       written := v |}])).
  { intros v. rewrite map_app. cbn. intros Hin.
    apply elem_of_app in Hin as [Hin|Hin]; [done|].
    apply list_elem_of_singleton in Hin. done. }
  destruct (_ <? _)%N.
  - cbn [snd]. rewrite abort_frame by (apply Hup' || done).
    by rewrite lookup_insert_ne.
  - rewrite IH by (apply Hup' || done). by rewrite lookup_insert_ne.
Qed.

End Frame.

(** An upload, accepted or not, leaves every blob alone whose name is not
    the storage name of one of its files: it neither changes nor removes
    nor creates it.  Both variants. *)
Theorem upload_leaves_other_blobs (req : Request) (w : World) (name : string) :
  (forall parts, body req = Multipart parts ->
                 name ∉ map Variant2.storage_filename parts) ->
  disk (Variant1.post_upload req w).2 !! name = disk w !! name /\
  disk (Variant2.post_upload req w).2 !! name = disk w !! name.
Proof.
  intros Hname. rewrite post_upload1_disk, post_upload2_disk.
  unfold Variant1.upload, Variant2.upload.
  destruct (body req) as [|parts]; [done|]. split.
  - apply (process_frame Variant1.options); [apply not_elem_of_nil|].
    cbn [Multer.storage_filename Variant1.options].
    rewrite (map_ext _ _ storage_filename_alike). by apply Hname.
  - apply (process_frame Variant2.options);
      [apply not_elem_of_nil|by apply Hname].
Qed.

Lemma upload_leaves_other_blobs_witness :
  let w := {| disk := {[ "1600000000000.png" := 77%N ]}; images := [] |} in
  disk (Variant1.post_upload (request_of [twin_a; oversized] None) w).2
    !! "1600000000000.png"
  = Some 77%N.
Proof.
  intros w.
  destruct (upload_leaves_other_blobs (request_of [twin_a; oversized] None) w
              "1600000000000.png") as [H _]; [|by rewrite H].
  intros parts [= <-]. by vm_compute; intros Hin; repeat
    (apply elem_of_cons in Hin as [Hin|Hin]; [discriminate Hin|]);
    apply elem_of_nil in Hin.
Defined.

(** ** More on the file filter *)

(** A file with one of the listed extensions, in whatever case, declared
    with one of the four image types, passes the filter of both
    variants. *)
Theorem listed_files_pass (p : Part) :
  JS.toLowerCase (Path.extname (originalname p))
    ∈ [".jpg"; ".jpeg"; ".png"; ".gif"] ->
  mimetype p ∈ ["image/jpeg"; "image/jpg"; "image/png"; "image/gif"] ->
  Variant1.fileFilter p = Multer.Accept /\ Variant2.fileFilter p = Multer.Accept.
Proof.
  intros Hext Hmime.
  rewrite fileFilter1_accept, fileFilter2_accept.
  assert (type_ok p = true); [|done].
  apply spec_valid_type_ok. unfold spec_valid.
  by rewrite !bool_decide_eq_true_2.
Qed.

Lemma listed_files_pass_witness :
  Variant1.fileFilter
    {| fieldname := "images"; originalname := "Urkunde.JPEG";
       mimetype := "image/jpeg"; size := 1; named_at := 1; late := Unseen |}
  = Multer.Accept.
Proof.
  refine (proj1 (listed_files_pass _ _ _)); vm_compute.
  - apply list_elem_of_further, list_elem_of_here.
  - apply list_elem_of_here.
Defined.

(** A file whose name has no extension (no dot in its last component, or
    only a leading one, as in [.png]) is turned down by both filters,
    whatever its content type. *)
Theorem no_extension_rejected (p : Part) :
  Path.extname (originalname p) = "" ->
  Variant1.fileFilter p = Multer.Reject "Nur JPG, PNG, GIF erlaubt!" /\
  Variant2.fileFilter p = Multer.Reject "❌ Nur JPG, PNG, GIF erlaubt!".
Proof.
  intros Hext. unfold Variant1.fileFilter, Variant2.fileFilter.
  rewrite Hext. cbn. by rewrite andb_false_r.
Qed.

Lemma no_extension_rejected_witness :
  Variant1.fileFilter
    {| fieldname := "images"; originalname := ".png";
       mimetype := "image/png"; size := 1; named_at := 1; late := Unseen |}
  = Multer.Reject "Nur JPG, PNG, GIF erlaubt!".
Proof.
  exact (proj1 (no_extension_rejected
                  {| fieldname := "images"; originalname := ".png";
                     mimetype := "image/png"; size := 1; named_at := 1; late := Unseen |}
                  eq_refl)).
Defined.
